(** * Reactive task graph and agent loop: a shallow embedding

    The TypeScript sources are embedded function by function.  Mutable
    closures become explicit state passing.  JavaScript objects used as
    dictionaries become finite maps over their own keys; where the
    sources look up a name supplied from outside ([tools[name]],
    [nodes[key]], [data[key]]) the members every object inherits are
    part of the lookup.  Built-ins the sources call ([JSON.stringify],
    [String], [Promise.all]) are either section variables or small
    models named after them. *)

From Stdlib Require Import String Ascii List Arith Bool Lia.
From stdpp Require Import base option list gmap strings pretty.

Import ListNotations.
Local Open Scope string_scope.
Local Open Scope list_scope.
Set Warnings "-register-all".

(** ** Canonical conversation data (memory.ts, lines 3-11) *)

Module Canon.

Inductive Role := user | assistant | system.

Definition Role_eqb (a b : Role) : bool :=
  match a, b with
  | user, user | assistant, assistant | system, system => true
  | _, _ => false
  end.

(** Structured values carried by tool inputs and tool outputs. *)
Inductive JSValue :=
| JSNull
| JSBool (b : bool)
| JSNumber (n : Z)
| JSString (s : string)
| JSArray (items : list JSValue)
| JSObject (fields : list (string * JSValue)).

Inductive ContentBlock :=
| text_block (text : string)
| tool_use (id name : string) (input : JSValue)
| tool_result (tool_use_id content : string) (is_error : option bool).

(** [content: string | ContentBlock[]] *)
Inductive Content :=
| Str (s : string)
| Blocks (bs : list ContentBlock).

Record Message := mkMessage { role : Role; content : Content }.

(** JavaScript truthiness of a string: only the empty string is falsy. *)
Definition truthy (s : string) : bool :=
  match s with EmptyString => false | String _ _ => true end.

(** [b.type === "text"] followed by [.map(b => b.text)] *)
Definition text_of_block (b : ContentBlock) : option string :=
  match b with text_block t => Some t | _ => None end.

Definition texts (bs : list ContentBlock) : list string :=
  omap text_of_block bs.

(** [Array.prototype.join(sep)] on strings. *)
Fixpoint join (sep : string) (l : list string) : string :=
  match l with
  | [] => ""
  | [s] => s
  | s :: rest => s +:+ sep +:+ join sep rest
  end.

Definition newline : string := String (ascii_of_nat 10) EmptyString.

(** The names every plain object inherits: the properties of
    [Object.prototype].  A lookup [obj[name]] on an object without a key
    [name] of its own finds these. *)
Definition Object_prototype : list string :=
  ["constructor"; "__defineGetter__"; "__defineSetter__"; "hasOwnProperty";
   "__lookupGetter__"; "__lookupSetter__"; "isPrototypeOf";
   "propertyIsEnumerable"; "toString"; "valueOf"; "__proto__";
   "toLocaleString"].

Definition inherited_name (name : string) : bool :=
  existsb (String.eqb name) Object_prototype.

End Canon.

(** ** Conversation store (memory.ts, lines 24-122) *)

Module Memory.
Import Canon.

Record MemoryConfig := mkConfig {
  maxMessages : option nat;
  systemPrompt : option string
}.

(** [if (set.systemPrompt)]: present and not the empty string. *)
Definition prompt_given (set : MemoryConfig) : option string :=
  match systemPrompt set with
  | Some s => if truthy s then Some s else None
  | None => None
  end.

(** The message list right after construction (lines 26-31). *)
Definition init (set : MemoryConfig) : list Message :=
  match prompt_given set with
  | Some s => [mkMessage system (Str s)]
  | None => []
  end.

(** [messages[0]?.role === "system"] *)
Definition head_is_system (messages : list Message) : bool :=
  match messages with
  | m :: _ => Role_eqb (role m) system
  | [] => false
  end.

(** [arr.splice(start, count)] for in-range non-negative arguments:
    the array that remains. *)
Definition splice {A} (start count : nat) (l : list A) : list A :=
  take start l ++ drop (start + count) l.

(** [addMessage] (lines 82-95): the backing list after the call. *)
Definition addMessage (set : MemoryConfig) (messages : list Message)
    (message : Message) : list Message :=
  let messages := messages ++ [message] in
  match maxMessages set with
  | Some (S _ as max) =>
      if Nat.ltb max (length messages) then
        let startIndex := if head_is_system messages then 1 else 0 in
        let excess := length messages - max in
        splice startIndex excess messages
      else messages
  | _ => messages
  end.

(** [clear] (lines 97-105): the backing list after the call. *)
Definition clear (messages : list Message) : list Message :=
  match messages with
  | m :: _ => if Role_eqb (role m) system then [m] else []
  | [] => []
  end.

(** [getMessages] returns a copy of the backing list. *)
Definition getMessages (messages : list Message) : list Message := messages.

(** The store driven through its public mutators. *)
Inductive Op := Add (m : Message) | Clear.

Definition step (set : MemoryConfig) (messages : list Message) (op : Op)
    : list Message :=
  match op with
  | Add m => addMessage set messages m
  | Clear => clear messages
  end.

Definition run (set : MemoryConfig) (ops : list Op) : list Message :=
  fold_left (step set) ops (init set).

Definition addAll (set : MemoryConfig) (ms : list Message) : list Message :=
  fold_left (addMessage set) ms (init set).

(** What every reachable backing list satisfies. *)
Definition store_ok (set : MemoryConfig) (messages : list Message) : Prop :=
  (forall max, maxMessages set = Some max -> 0 < max -> length messages <= max)
  /\ (forall s, prompt_given set = Some s ->
        exists rest, messages = mkMessage system (Str s) :: rest).

End Memory.

(** ** Event channel (EventEmitter.ts) and the emitters the nodes carry *)

Module Events.
Import Canon.

(** Event payloads and thrown values are arbitrary JavaScript values. *)
Definition Data := JSValue.

(** A handler is identified by [hid]; [body h d = Some e] says that the
    call [h(d)] throws [e], [None] that it returns. *)
Record Handler := mkHandler { hid : nat; body : Data -> option Data }.

(** How a call ends: it returns, or an exception leaves it. *)
Inductive Completion := Normal | Throws (e : Data).

(** What a publication does, in order. *)
Inductive Action :=
| Invoke (event : string) (h : nat) (data : Data)
| ConsoleError (event : string) (error : Data).

(** [listeners[event]?.forEach(...)]: a missing entry runs nothing. *)
Definition handlers (listeners : gmap string (list Handler)) (event : string)
    : list Handler :=
  default [] (listeners !! event).

(** [on] (lines 15-18). *)
Definition on (listeners : gmap string (list Handler)) (event : string)
    (handler : Handler) : gmap string (list Handler) :=
  <[event := handlers listeners event ++ [handler]]> listeners.

(** The [forEach] of [emit] with its [try]/[catch] (lines 20-31);
    [on_throw] is the catch block. *)
Definition forEach_try (hs : list Handler) (event : string) (data : Data)
    (on_throw : Data -> list Action) : list Action :=
  flat_map (fun handler =>
    Invoke event (hid handler) data ::
    match body handler data with
    | Some error => on_throw error
    | None => []
    end) hs.

(** [emit] (lines 19-33).  The recursive call [emit('error', error)] is
    only reached from an event other than ['error'], and inside it the
    catch block logs, so the recursion is unfolded once. *)
Definition emit (listeners : gmap string (list Handler)) (event : string)
    (data : Data) : list Action * Completion :=
  (forEach_try (handlers listeners event) event data (fun error =>
     if String.eqb event "error" then [ConsoleError event error]
     else forEach_try (handlers listeners "error") "error" error
            (fun error' => [ConsoleError "error" error'])),
   Normal).

(** The bare [forEach] of the emitters written inside the memory,
    config, llm, toolRouter and agentLoop nodes (memory.ts, lines 73-77):
    an exception leaves the loop and the call. *)
Fixpoint forEach_plain (hs : list Handler) (event : string) (data : Data)
    : list Action * Completion :=
  match hs with
  | [] => ([], Normal)
  | handler :: rest =>
      match body handler data with
      | Some error => ([Invoke event (hid handler) data], Throws error)
      | None =>
          let '(acts, c) := forEach_plain rest event data in
          (Invoke event (hid handler) data :: acts, c)
      end
  end.

Definition node_emit (listeners : gmap string (list Handler))
    (event : string) (data : Data) : list Action * Completion :=
  match listeners !! event with
  | Some hs => forEach_plain hs event data
  | None => ([], Normal)
  end.

(** The handlers a trace invoked for [event], in order. *)
Definition invoked (event : string) (acts : list Action) : list nat :=
  omap (fun a => match a with
                 | Invoke ev h _ => if String.eqb ev event then Some h else None
                 | ConsoleError _ _ => None
                 end) acts.

End Events.

(** ** Streams (readStream.ts, writeStream.ts, pipe.ts) and the input node *)

Module Streams.
Import Canon Events.

Inductive Status := open | paused | error | closed.

(** The object [rs] built by [readStream()]: its own [status] field and
    the listener table of the emitter [s] its methods close over. *)
Record ReadStream := mkReadStream {
  rs_status : Status;
  rs_listeners : gmap string (list Handler)
}.

Definition readStream : ReadStream :=
  {| rs_status := paused; rs_listeners := ∅ |}.

(** [resume: () => { rs.status = "open" }] *)
Definition rs_resume (rs : ReadStream) : ReadStream :=
  {| rs_status := open; rs_listeners := rs_listeners rs |}.

(** [pause: () => { rs.status = "paused" }] *)
Definition rs_pause (rs : ReadStream) : ReadStream :=
  {| rs_status := paused; rs_listeners := rs_listeners rs |}.

Definition rs_on (rs : ReadStream) (event : string) (h : Handler) : ReadStream :=
  {| rs_status := rs_status rs; rs_listeners := on (rs_listeners rs) event h |}.

(** [pipe(readStream, writeStream)] (pipe.ts): three subscriptions, given
    here as the three forwarding closures. *)
Record Forwarders := mkForwarders {
  fw_data : Handler; fw_error : Handler; fw_close : Handler
}.

Definition pipe (rs : ReadStream) (ws : Forwarders) : ReadStream :=
  rs_on (rs_on (rs_on rs "data" (fw_data ws)) "error" (fw_error ws))
        "close" (fw_close ws).

(** [rs.pipe]: [pipe(s, writeStream); rs.resume()] *)
Definition rs_pipe (rs : ReadStream) (ws : Forwarders) : ReadStream :=
  rs_resume (pipe rs ws).

(** The object [s = { ...rs, trigger }] returned by [input()]: the spread
    copies the value of [rs.status] into a field of its own, while the
    copied methods still refer to [rs]. *)
Record InputNode := mkInputNode {
  inner : ReadStream;
  status : Status
}.

Definition input : InputNode :=
  let rs := readStream in
  {| inner := rs; status := rs_status rs |}.

Definition resume (s : InputNode) : InputNode :=
  {| inner := rs_resume (inner s); status := status s |}.

Definition pause (s : InputNode) : InputNode :=
  {| inner := rs_pause (inner s); status := status s |}.

Definition on_ (s : InputNode) (event : string) (h : Handler) : InputNode :=
  {| inner := rs_on (inner s) event h; status := status s |}.

Definition pipe_ (s : InputNode) (ws : Forwarders) : InputNode :=
  {| inner := rs_pipe (inner s) ws; status := status s |}.

(** [trigger: (data) => { s.emit("data", data) }] *)
Definition trigger (s : InputNode) (data : Data) : list Action * Completion :=
  emit (rs_listeners (inner s)) "data" data.

(** Calls a client can make on an input node. *)
Inductive Call :=
| CResume | CPause
| COn (event : string) (h : Handler)
| CPipe (ws : Forwarders)
| CTrigger (data : Data).

Definition call (s : InputNode) (c : Call) : InputNode :=
  match c with
  | CResume => resume s
  | CPause => pause s
  | COn event h => on_ s event h
  | CPipe ws => pipe_ s ws
  | CTrigger _ => s
  end.

Definition calls (cs : list Call) : InputNode := fold_left call cs input.

End Streams.

(** ** Tool dispatch (toolRouter.ts, lines 94-133; agentLoop.ts, [executeTools]) *)

Module Tools.
Import Canon.

(** [ToolCall] (llm.ts, lines 14-18) *)
Record ToolCall := mkToolCall {
  tc_id : string;
  tc_name : string;
  tc_input : JSValue
}.

(** [ToolResult] (toolRouter.ts, lines 7-11); an absent [is_error] is [None]. *)
Record ToolResult := mkToolResult {
  tool_use_id : string;
  result_content : string;
  is_error : option bool
}.

(** What a [catch] clause may receive: an [Error] object with its
    message, or any other thrown value. *)
Inductive Thrown :=
| ErrorObject (message : string)
| ThrownValue (v : JSValue).

(** How [await handler(input)] ends: the handler returned (or its promise
    was fulfilled with) a value, or it threw (or its promise rejected). *)
Inductive Settled :=
| Fulfilled (result : JSValue)
| Rejected (error : Thrown).

Abbreviation ToolHandler := (JSValue -> Settled).

(** How [JSON.stringify(value)] ends: with a text, or with an exception
    (a value with a cycle, a [BigInt], a throwing [toJSON]). *)
Inductive Serialized :=
| JsonText (text : string)
| JsonThrows (error : Thrown).

Definition dquote : string := String (ascii_of_nat 34) EmptyString.

Section Dispatch.
(** The built-ins [JSON.stringify] and [String]. *)
Variable JSON_stringify : JSValue -> Serialized.
Variable String_of : JSValue -> string.
(** The handler table is a plain object, and [tools[name]] also finds
    what every object inherits ([toString], [constructor], ...) when the
    table has no key [name] of its own.  [inherited name = Some h] says
    that [name] is such a member, and that the call [handler(input)] made
    on it ends as [h input] does; a member that cannot be called makes
    that call throw a [TypeError], like a handler that throws. *)
Variable inherited : string -> option ToolHandler.

(** [tools[name]] *)
Definition lookup_handler (tools : gmap string ToolHandler) (name : string)
    : option ToolHandler :=
  match tools !! name with
  | Some handler => Some handler
  | None => inherited name
  end.

(** The value returned from the [try] block: no [is_error] field. *)
Definition succeeded (toolCall : ToolCall) (content : string) : ToolResult :=
  {| tool_use_id := tc_id toolCall; result_content := content;
     is_error := None |}.

(** [error instanceof Error ? error.message : String(error)] *)
Definition thrown_text (error : Thrown) : string :=
  match error with
  | ErrorObject message => message
  | ThrownValue v => String_of v
  end.

(** The value returned from the [catch] block, which receives what the
    handler threw or rejected with, and also what [JSON.stringify] threw:
    both calls stand inside the [try]. *)
Definition failed (toolCall : ToolCall) (error : Thrown) : ToolResult :=
  {| tool_use_id := tc_id toolCall;
     result_content := "Error: " +:+ thrown_text error;
     is_error := Some true |}.

(** The body of the [async (toolCall) => ...] arrow mapped over the
    batch, the same text in both files: the value its promise resolves
    to, and the handler invocations it made. *)
Definition runToolCall (tools : gmap string ToolHandler) (toolCall : ToolCall)
    : ToolResult * list (string * JSValue) :=
  match lookup_handler tools (tc_name toolCall) with
  | None =>
      ({| tool_use_id := tc_id toolCall;
          result_content :=
            "Error: Tool " +:+ dquote +:+ tc_name toolCall +:+ dquote +:+ " not found";
          is_error := Some true |}, [])
  | Some handler =>
      (match handler (tc_input toolCall) with
       | Fulfilled result =>
           match result with
           | JSString s => succeeded toolCall s
           | _ =>
               match JSON_stringify result with
               | JsonText text => succeeded toolCall text
               | JsonThrows error => failed toolCall error
               end
           end
       | Rejected error => failed toolCall error
       end, [(tc_name toolCall, tc_input toolCall)])
  end.

(** [Promise.all] over promises that resolve to [values], settling in
    the order [order] (a list of positions): each settlement writes its
    own slot, and the array is delivered once every slot is written.
    [None] is a batch that never completes. *)
Definition settle {A} (values : list A) (slots : list (option A)) (k : nat)
    : list (option A) :=
  match values !! k with
  | Some v => <[k := Some v]> slots
  | None => slots
  end.

Definition Promise_all {A} (values : list A) (order : list nat)
    : option (list A) :=
  mapM id (fold_left (settle values) order (replicate (length values) None)).

(** Every promise of a batch of [n] settles. *)
Definition all_settle (n : nat) (order : list nat) : bool :=
  forallb (fun k => existsb (Nat.eqb k) order) (seq 0 n).

(** [executeTools] (agentLoop.ts). *)
Definition executeTools (toolHandlers : gmap string ToolHandler)
    (toolCalls : list ToolCall) (order : list nat) : option (list ToolResult) :=
  Promise_all (map (fun toolCall => fst (runToolCall toolHandlers toolCall))
                   toolCalls) order.

(** The payload of the router's ["data"] event. *)
Record RouterData := mkRouterData {
  results : list ToolResult;
  contentBlocks : option (list ContentBlock);
  hasToolCalls : bool
}.

(** The router's ["input"] handler (toolRouter.ts, lines 94-133);
    [toolCalls = None] is a payload without the field. *)
Definition toolRouter (tools : gmap string ToolHandler)
    (toolCalls : option (list ToolCall)) (order : list nat)
    : option RouterData :=
  let toolCalls := default [] toolCalls in
  if Nat.eqb (length toolCalls) 0 then
    Some {| results := []; contentBlocks := None; hasToolCalls := false |}
  else
    match Promise_all (map (fun toolCall => fst (runToolCall tools toolCall))
                           toolCalls) order with
    | None => None
    | Some results =>
        Some {| results := results;
                contentBlocks :=
                  Some (map (fun result =>
                               tool_result (tool_use_id result)
                                 (result_content result) (is_error result))
                            results);
                hasToolCalls := true |}
    end.

(** The array [executeTools] delivers once every handler of the batch
    has settled, whatever the settling order (see [Promise_all_complete]). *)
Definition awaited_results (toolHandlers : gmap string ToolHandler)
    (toolCalls : list ToolCall) : list ToolResult :=
  map (fun toolCall => fst (runToolCall toolHandlers toolCall)) toolCalls.

End Dispatch.

(** The inherited member the examples call.  [Object.prototype.toString],
    called as [handler(toolCall.input)], has no receiver and returns
    ["[object Undefined]"]. *)
Definition inherits_toString (name : string) : option ToolHandler :=
  if String.eqb name "toString"
  then Some (fun _ => Fulfilled (JSString "[object Undefined]"))
  else None.

End Tools.

(** ** Agent loop (agentLoop.ts, the ["input"] handler and its loop) *)

Module Agent.
Import Canon Tools.

(** What [callLLM] resolves to. *)
Record LLMResponse := mkLLMResponse {
  resp_content : list ContentBlock;
  resp_toolCalls : list ToolCall;
  resp_stopReason : string
}.

(** A model call resolves, or throws (transport failure, bad status,
    unknown provider) with a message. *)
Inductive CallResult :=
| Replied (llmResponse : LLMResponse)
| CallThrew (message : string).

(** The fields of [AgentConfig] the loop reads. *)
Record AgentConfig := mkAgentConfig {
  apiKey : option string;
  maxIterations : option nat;
  systemPrompt : option string
}.

Record InputData := mkInputData {
  userMessage : option string;
  message : option Message;
  in_apiKey : option string
}.

(** Events the node publishes. *)
Inductive Emitted :=
| iteration_start (messages : list Message)
| iteration_llm_response (iteration : nat) (content : list ContentBlock)
    (toolCalls : list ToolCall) (stopReason : string)
| iteration_tool_results (iteration : nat) (toolResults : list ToolResult)
| data (response : string) (content : list ContentBlock)
    (messages : list Message) (iterations : nat) (stopReason : string)
| error (message : string).

(** The closure state of one node, with a log of the model calls made
    (each with the message list it was sent). *)
Record AgentState := mkAgentState {
  messages : list Message;
  emitted : list Emitted;
  modelCalls : list (list Message)
}.

Definition push (st : AgentState) (m : Message) : AgentState :=
  {| messages := messages st ++ [m]; emitted := emitted st;
     modelCalls := modelCalls st |}.

(** The publication of [e] entered in the log. *)
Definition logged (st : AgentState) (e : Emitted) : AgentState :=
  {| messages := messages st; emitted := emitted st ++ [e];
     modelCalls := modelCalls st |}.

Definition calling (st : AgentState) : AgentState :=
  {| messages := messages st; emitted := emitted st;
     modelCalls := modelCalls st ++ [messages st] |}.

(** A string option read as a condition: absent and empty are falsy. *)
Definition given (o : option string) : option string :=
  match o with
  | Some s => if truthy s then Some s else None
  | None => None
  end.

(** [a || b] on optional strings. *)
Definition or_else (a b : option string) : option string :=
  match given a with Some s => Some s | None => b end.

(** [maxIterations: set.maxIterations || 10] *)
Definition config_maxIterations (set : AgentConfig) : nat :=
  match maxIterations set with
  | Some (S n) => S n
  | _ => 10
  end.

(** State after construction (lines 409-425 of the node). *)
Definition initial (set : AgentConfig) : AgentState :=
  {| messages := match given (systemPrompt set) with
                 | Some s => [mkMessage system (Str s)]
                 | None => []
                 end;
     emitted := []; modelCalls := [] |}.

Definition is_data (e : Emitted) : bool :=
  match e with data _ _ _ _ _ => true | _ => false end.

(** The name an event is published under. *)
Definition event_name (e : Emitted) : string :=
  match e with
  | iteration_start _ | iteration_llm_response _ _ _ _
  | iteration_tool_results _ _ => "iteration"
  | data _ _ _ _ _ => "data"
  | error _ => "error"
  end.

(** A handler registered with [node.on]: [h e = Some m] says that the
    call [h(e)] throws an error of message [m], [None] that it returns.
    A handler is taken to answer the same event the same way each time,
    and not to touch the node. *)
Abbreviation Subscriber := (Emitted -> option string).

(** [listeners[event].forEach(handler => handler(data))] (lines 465-469):
    the first handler that throws ends the loop, and its exception
    leaves the call. *)
Fixpoint forEach (hs : list Subscriber) (e : Emitted) : option string :=
  match hs with
  | [] => None
  | handler :: rest =>
      match handler e with
      | Some thrown => Some thrown
      | None => forEach rest e
      end
  end.

(** How the handling of one input ends: the [async] handler returns, or
    an exception leaves it (thrown by a subscriber of ["error"] while the
    [catch] block was publishing). *)
Inductive Ending :=
| Returned
| Escaped (message : string).

Section Loop.
Variable JSON_stringify : JSValue -> Serialized.
Variable String_of : JSValue -> string.
Variable inherited : string -> option ToolHandler.
(** The network round trip: [callLLM n apiKey messages] is what the
    call made after [n] earlier ones resolves to. *)
Variable callLLM : nat -> string -> list Message -> CallResult.
Variable toolHandlers : gmap string ToolHandler.
Variable set : AgentConfig.
(** The handlers registered with [node.on], by event name. *)
Variable listeners : gmap string (list Subscriber).

Definition limit_message : string :=
  "Max iterations (" +:+ pretty (config_maxIterations set) +:+ ") reached".

(** The exception that leaves [node.emit] when [e] is published, if any:
    [if (listeners[event]) listeners[event].forEach(...)]. *)
Definition thrown (e : Emitted) : option string :=
  match listeners !! event_name e with
  | Some hs => forEach hs e
  | None => None
  end.

(** [node.emit(event, data)] (lines 465-469): the state with the
    publication logged, and the exception that leaves the call, if any. *)
Definition emit (st : AgentState) (e : Emitted) : AgentState * option string :=
  (logged st e, thrown e).

(** The [while (iteration < config.maxIterations)] loop and the
    statement after it, inside the handler's [try]: the state reached,
    and the exception that leaves the [try] block, if any.  [fuel] bounds
    the unfolding; [None] is fuel exhausted.  The loop is described for
    tool handlers that settle: [await executeTools(...)] delivers
    [awaited_results]. *)
Fixpoint loop (fuel : nat) (apiKey : string) (iteration : nat)
    (st : AgentState) : option (AgentState * option string) :=
  if Nat.ltb iteration (config_maxIterations set) then
    match fuel with
    | 0 => None
    | S fuel =>
        let iteration := S iteration in
        let st := calling st in
        match callLLM (length (modelCalls st) - 1) apiKey (messages st) with
        | CallThrew e => Some (st, Some e)
        | Replied llmResponse =>
            let st := push st (mkMessage assistant
                                 (Blocks (resp_content llmResponse))) in
            match emit st (iteration_llm_response iteration
                             (resp_content llmResponse)
                             (resp_toolCalls llmResponse)
                             (resp_stopReason llmResponse)) with
            | (st, Some thrown) => Some (st, Some thrown)
            | (st, None) =>
                if negb (String.eqb (resp_stopReason llmResponse) "tool_use")
                   || Nat.eqb (length (resp_toolCalls llmResponse)) 0
                then
                  let textContent :=
                    join newline (texts (resp_content llmResponse)) in
                  Some (emit st (data textContent (resp_content llmResponse)
                                   (messages st) iteration
                                   (resp_stopReason llmResponse)))
                else
                  let toolResults :=
                    awaited_results JSON_stringify String_of inherited
                      toolHandlers (resp_toolCalls llmResponse) in
                  let toolResultBlocks :=
                    map (fun result =>
                           tool_result (tool_use_id result)
                             (result_content result) (is_error result))
                        toolResults in
                  let st := push st (mkMessage user (Blocks toolResultBlocks)) in
                  match emit st (iteration_tool_results iteration toolResults) with
                  | (st, Some thrown) => Some (st, Some thrown)
                  | (st, None) => loop fuel apiKey iteration st
                  end
            end
        end
    end
  else Some (emit st (error limit_message)).

(** One turn of the loop body, for a reply that asks for tools and
    subscribers that return: the state the next turn starts from. *)
Definition tool_turn (iteration : nat) (st : AgentState) (r : LLMResponse)
    : AgentState :=
  let toolResults :=
    awaited_results JSON_stringify String_of inherited toolHandlers
      (resp_toolCalls r) in
  logged (push
          (logged (push (calling st) (mkMessage assistant (Blocks (resp_content r))))
                (iteration_llm_response (S iteration) (resp_content r)
                   (resp_toolCalls r) (resp_stopReason r)))
          (mkMessage user
             (Blocks (map (fun result =>
                             tool_result (tool_use_id result)
                               (result_content result) (is_error result))
                          toolResults))))
       (iteration_tool_results (S iteration) toolResults).

(** The body of the handler's [try] block (lines 498-574). *)
Definition try_block (inputData : InputData) (st : AgentState)
    : option (AgentState * option string) :=
  match or_else (in_apiKey inputData) (given (apiKey set)) with
  | None => Some (emit st (error "API key is required for agent loop"))
  | Some apiKey =>
      let st :=
        match given (userMessage inputData) with
        | Some u => push st (mkMessage user (Str u))
        | None =>
            match message inputData with
            | Some m => push st m
            | None => st
            end
        end in
      match emit st (iteration_start (messages st)) with
      | (st, Some thrown) => Some (st, Some thrown)
      | (st, None) => loop (config_maxIterations set) apiKey 0 st
      end
  end.

(** The ["input"] handler (lines 497-578 of the node): what leaves the
    [try] block, a failed model call or a subscriber's exception, is
    published as an ["error"] by the [catch] block. *)
Definition on_input (inputData : InputData) (st : AgentState)
    : option (AgentState * Ending) :=
  match try_block inputData st with
  | None => None
  | Some (st, None) => Some (st, Returned)
  | Some (st, Some caught) =>
      match emit st (error caught) with
      | (st, None) => Some (st, Returned)
      | (st, Some thrown) => Some (st, Escaped thrown)
      end
  end.

End Loop.

End Agent.

(** ** Protocol adapter (llm.ts and the agent loop's [callAnthropic], [callOpenAI]) *)

Module Adapter.
Import Canon Tools Agent.

(** [ToolDefinition] (llm.ts, lines 4-12); the schema is passed on as is. *)
Record ToolDefinition := mkToolDefinition {
  td_name : string;
  td_description : string;
  input_schema : JSValue
}.

(** *** Anthropic: request body (llm.ts, lines 266-287; agent loop, 600-622) *)

Record AnthropicRequest := mkAnthropicRequest {
  req_messages : list Message;
  req_system : option string;
  req_tools : option (list ToolDefinition)
}.

(** [b.text || ""] *)
Definition text_or_empty (b : ContentBlock) : string :=
  match b with text_block t => t | _ => "" end.

(** The string assigned to [systemPrompt] for a system message. *)
Definition system_text (m : Message) : string :=
  match content m with
  | Str s => s
  | Blocks bs => join newline (map text_or_empty bs)
  end.

(** The [filter] whose callback also assigns [systemPrompt]: the variable
    after the pass and the messages kept. *)
Definition extract_system (messages : list Message)
    : option string * list Message :=
  fold_left (fun '(systemPrompt, kept) m =>
               if Role_eqb (role m) system
               then (Some (system_text m), kept)
               else (systemPrompt, kept ++ [m]))
            messages (None, []).

(** The two things the pass computes, taken apart: whether a message is
    kept, and the value of [systemPrompt] after visiting a message. *)
Definition not_system (m : Message) : bool := negb (Role_eqb (role m) system).

Definition last_system (acc : option string) (m : Message) : option string :=
  if Role_eqb (role m) system then Some (system_text m) else acc.

Definition anthropicRequest (messages : list Message)
    (tools : list ToolDefinition) : AnthropicRequest :=
  let '(systemPrompt, filteredMessages) := extract_system messages in
  {| req_messages := filteredMessages;
     req_system := given systemPrompt;
     req_tools := if Nat.ltb 0 (length tools) then Some tools else None |}.

(** *** Anthropic: response (agent loop, lines 639-653) *)

Record AnthropicResponse := mkAnthropicResponse {
  ar_content : list ContentBlock;
  ar_stop_reason : string
}.

Definition toolCall_of_block (b : ContentBlock) : option ToolCall :=
  match b with
  | tool_use id name input => Some (mkToolCall id name input)
  | _ => None
  end.

Definition parseAnthropic (data : AnthropicResponse) : LLMResponse :=
  {| resp_content := ar_content data;
     resp_toolCalls := omap toolCall_of_block (ar_content data);
     resp_stopReason := ar_stop_reason data |}.

(** *** OpenAI: messages out (llm.ts, lines 90-135) *)

Inductive OpenAIRole := oa_user | oa_assistant | oa_system | oa_tool.

(** The role string is carried over unchanged. *)
Definition wire_role (r : Role) : OpenAIRole :=
  match r with user => oa_user | assistant => oa_assistant | system => oa_system end.

(** One entry of [tool_calls]; its [type] is always ["function"]. *)
Record OpenAIToolCall := mkOpenAIToolCall {
  otc_id : string;
  fn_name : string;
  fn_arguments : string
}.

Record OpenAIMessage := mkOpenAIMessage {
  oa_role : OpenAIRole;
  oa_content : option string;
  oa_tool_calls : option (list OpenAIToolCall);
  oa_tool_call_id : option string
}.

Section OpenAI.
Variable JSON_stringify : JSValue -> string.
(** [JSON.parse]; [None] is a thrown [SyntaxError]. *)
Variable JSON_parse : string -> option JSValue.

Definition toolUse_of_block (b : ContentBlock) : option OpenAIToolCall :=
  match b with
  | tool_use id name input => Some (mkOpenAIToolCall id name (JSON_stringify input))
  | _ => None
  end.

Definition toolResult_of_block (b : ContentBlock) : option OpenAIMessage :=
  match b with
  | tool_result tool_use_id c _ =>
      Some (mkOpenAIMessage oa_tool (Some c) None (Some tool_use_id))
  | _ => None
  end.

(** The callback of the [flatMap]. *)
Definition convertMessage (msg : Message) : list OpenAIMessage :=
  match content msg with
  | Str s => [mkOpenAIMessage (wire_role (role msg)) (Some s) None None]
  | Blocks bs =>
      let textBlocks := texts bs in
      let toolUseBlocks := omap toolUse_of_block bs in
      let toolResultBlocks := omap toolResult_of_block bs in
      match role msg with
      | assistant =>
          [mkOpenAIMessage oa_assistant
             (given (Some (join newline textBlocks)))
             (if Nat.ltb 0 (length toolUseBlocks) then Some toolUseBlocks else None)
             None]
      | user =>
          toolResultBlocks ++
          (if Nat.ltb 0 (length textBlocks)
           then [mkOpenAIMessage oa_user (Some (join newline textBlocks)) None None]
           else [])
      | system =>
          [mkOpenAIMessage oa_system (Some (join newline textBlocks)) None None]
      end
  end.

Definition convertToOpenAIMessages (messages : list Message) : list OpenAIMessage :=
  flat_map convertMessage messages.

(** *** OpenAI: response in (llm.ts, lines 137-168) *)

Record OpenAIChoice := mkOpenAIChoice {
  choice_message : OpenAIMessage;
  finish_reason : string
}.

Record OpenAIResponse := mkOpenAIResponse { choices : list OpenAIChoice }.

(** [None] is a thrown exception: no first choice, or arguments that do
    not parse. *)
Definition convertOpenAIResponseToAnthropic (response : OpenAIResponse)
    : option LLMResponse :=
  match choices response with
  | [] => None
  | choice :: _ =>
      let text :=
        match given (oa_content (choice_message choice)) with
        | Some s => [text_block s]
        | None => []
        end in
      match mapM (fun tc =>
                    match JSON_parse (fn_arguments tc) with
                    | Some input => Some (mkToolCall (otc_id tc) (fn_name tc) input)
                    | None => None
                    end)
                 (default [] (oa_tool_calls (choice_message choice))) with
      | None => None
      | Some toolCalls =>
          Some {| resp_content :=
                    text ++ map (fun tc => tool_use (tc_id tc) (tc_name tc) (tc_input tc))
                                toolCalls;
                  resp_toolCalls := toolCalls;
                  resp_stopReason :=
                    if String.eqb (finish_reason choice) "tool_calls"
                    then "tool_use" else finish_reason choice |}
      end
  end.

End OpenAI.

(** *** The round trip of a plain-text message

    The sources have no conversion from a wire message back to a
    [Message]; what comes back from a provider is a response, parsed by
    the inbound conversion into content blocks.  The definitions below
    put a wire message's text into the response shape of its provider,
    and read the parsed reply the way the agent loop does. *)

Definition openai_response_carrying (m : OpenAIMessage) : OpenAIResponse :=
  mkOpenAIResponse [mkOpenAIChoice m "stop"].

Definition anthropic_response_carrying (m : Message) : AnthropicResponse :=
  mkAnthropicResponse
    (match content m with Str s => [text_block s] | Blocks bs => bs end)
    "end_turn".

(** [messages.push({ role: "assistant", content: llmResponse.content })] *)
Definition stored_reply (r : LLMResponse) : Message :=
  mkMessage assistant (Blocks (resp_content r)).

(** The text of a reply: its text blocks joined by newlines. *)
Definition reply_text (r : LLMResponse) : string :=
  join newline (texts (resp_content r)).

Definition openai_round_trip (JSON_stringify : JSValue -> string)
    (JSON_parse : string -> option JSValue) (m : Message) : option LLMResponse :=
  match convertToOpenAIMessages JSON_stringify [m] with
  | [w] => convertOpenAIResponseToAnthropic JSON_parse (openai_response_carrying w)
  | _ => None
  end.

Definition anthropic_round_trip (m : Message) : option LLMResponse :=
  match req_messages (anthropicRequest [m] []) with
  | [w] => Some (parseAnthropic (anthropic_response_carrying w))
  | _ => None
  end.

End Adapter.

(** ** Graph compiler (tasks/index.ts) *)

Module Compiler.
Import Canon.

(** [NodeInput] (types.ts, lines 4-7) *)
Record NodeInput := mkNodeInput { node : string; out : string }.

(** A value of the [in] map: one edge, an array of edges, or a value
    that is not an object. *)
Inductive InValue :=
| Edge (e : NodeInput)
| EdgeList (es : list NodeInput)
| Scalar (v : string).

(** [TaskNodeDescriptor] (types.ts, lines 11-16); the [in] map is kept
    as its entries in [Object.entries] order. *)
Record TaskNodeDescriptor := mkDescriptor {
  type : string;
  id : option string;
  set : option JSValue;
  in_ : option (list (string * InValue))
}.

(** A node instance: the constructor it came from and its configuration. *)
Record TaskNode := mkTaskNode { node_type : string; node_set : option JSValue }.

(** The table exported by nodes/index.ts. *)
Definition nodeTypes : list string :=
  ["input"; "output"; "fetch"; "config"; "memory"; "llm"; "toolRouter"; "agentLoop"].

(** What [transformEvent] sets up: a write stream piped from the producer
    whose ["data"] handler does [event[inputKey] = data[outputKey]] and
    then [inputNode.write(event)] with the consumer's shared accumulator.
    An [outputKey] of [None] is [undefined]. *)
Record Subscription := mkSubscription {
  consumer : string;
  inputKey : string;
  producer : string;
  outputKey : option string
}.

Inductive Thrown :=
| Error (message : string)
| TypeError (message : string).

(** How a call ends.  [Unspecified] marks an input outside the declared
    type [TaskNodeTypes] that the source's own guard lets through (a type
    named like a member every object inherits): what the compiler does
    with it is not described here. *)
Inductive Result (A : Type) :=
| Ok (a : A)
| Throw (e : Thrown)
| Unspecified.
Arguments Ok {A} a.
Arguments Throw {A} e.
Arguments Unspecified {A}.

Definition bind {A B} (r : Result A) (k : A -> Result B) : Result B :=
  match r with Ok a => k a | Throw e => Throw e | Unspecified => Unspecified end.

Record CompileContext := mkContext {
  nodes : gmap string TaskNode;
  nodeTypeCounts : gmap string nat;
  subscriptions : list Subscription
}.

(** The property names of the object each constructor returns
    (input.ts, output.ts with writeStream.ts, fetch.ts, config.ts,
    memory.ts, llm.ts, toolRouter.ts, agentLoop.ts). *)
Definition members (type : string) : list string :=
  if String.eqb type "input" then
    ["on"; "emit"; "status"; "pipe"; "resume"; "pause"; "trigger"]
  else if String.eqb type "output" then
    ["on"; "emit"; "status"; "write"; "end"; "addListener"]
  else if String.eqb type "fetch" then
    ["status"; "write"; "end"; "pipe"; "resume"; "pause"; "on"; "emit"]
  else if String.eqb type "config" then
    ["status"; "pipe"; "resume"; "pause"; "on"; "emit"]
  else if String.eqb type "memory" then
    ["status"; "write"; "end"; "pipe"; "resume"; "pause"; "on"; "emit";
     "getMessages"; "addMessage"; "clear"]
  else if String.eqb type "llm" then
    ["status"; "write"; "end"; "pipe"; "resume"; "pause"; "on"; "emit"]
  else if String.eqb type "toolRouter" then
    ["status"; "write"; "end"; "pipe"; "resume"; "pause"; "on"; "emit";
     "registerTool"; "unregisterTool"; "getTools"]
  else if String.eqb type "agentLoop" then
    ["status"; "write"; "end"; "pipe"; "resume"; "pause"; "on"; "emit";
     "registerTool"; "unregisterTool"; "getConversation"; "clearConversation"]
  else [].

(** The node has a [pipe] method: every node but the output node, which
    is a write stream. *)
Definition has_pipe (n : TaskNode) : bool :=
  existsb (String.eqb "pipe") (members (node_type n)).

(** What [compileContext.nodes[key]] yields.  The table is a plain
    object: a key it does not hold itself is looked up in its prototype,
    which is [Object.prototype] unless a node was stored under the id
    [__proto__] (that assignment makes the node the table's prototype),
    and then that node, whose members are found as well. *)
Inductive Found :=
| FoundNode (n : TaskNode)
| FoundMember
| FoundNothing.

Definition lookup_node (nodes : gmap string TaskNode) (key : string) : Found :=
  match nodes !! key with
  | Some n => FoundNode n
  | None =>
      if inherited_name key
         || match nodes !! "__proto__" with
            | Some prototype => existsb (String.eqb key) (members (node_type prototype))
            | None => false
            end
      then FoundMember
      else FoundNothing
  end.

(** [transformEvent] (lines 5-22 of the file), called with
    [compileContext.nodes[producerKey]] as [outputNode]; it ends with
    [outputNode.pipe(s)].  Piping from a node that does not exist reads
    [pipe] of [undefined]; an output node, and an inherited member, have
    no [pipe] to call.  The pipes of the other nodes return. *)
Definition transformEvent (nodes : gmap string TaskNode)
    (consumerId inputKey producerKey : string) (outputKey : option string)
    : Result Subscription :=
  match lookup_node nodes producerKey with
  | FoundNode n =>
      if has_pipe n
      then Ok (mkSubscription consumerId inputKey producerKey outputKey)
      else Throw (TypeError "outputNode.pipe is not a function")
  | FoundMember => Throw (TypeError "outputNode.pipe is not a function")
  | FoundNothing =>
      Throw (TypeError "Cannot read properties of undefined (reading 'pipe')")
  end.

(** [nodeDescriptor.id || `${type}-${count}`] *)
Definition assign_id (d : TaskNodeDescriptor) (count : nat) : string :=
  match id d with
  | Some (String a rest) => String a rest
  | _ => type d +:+ "-" +:+ pretty count
  end.

(** First pass (lines 38-52): instantiate every node and fix its id.
    The guard [!nodeTypes[nodeDescriptor.type]] passes for the eight
    constructors and for the names the table inherits. *)
Fixpoint instantiate (workflow : list TaskNodeDescriptor)
    (nodes : gmap string TaskNode) (counts : gmap string nat)
    : Result (gmap string TaskNode * gmap string nat * list TaskNodeDescriptor) :=
  match workflow with
  | [] => Ok (nodes, counts, [])
  | nodeDescriptor :: rest =>
      if existsb (String.eqb (type nodeDescriptor)) nodeTypes then
        let count := default 0 (counts !! type nodeDescriptor) + 1 in
        let counts := <[type nodeDescriptor := count]> counts in
        let id' := assign_id nodeDescriptor count in
        let nodes := <[id' := mkTaskNode (type nodeDescriptor) (set nodeDescriptor)]> nodes in
        bind (instantiate rest nodes counts) (fun '(nodes, counts, ds) =>
          Ok (nodes, counts,
              mkDescriptor (type nodeDescriptor) (Some id') (set nodeDescriptor)
                (in_ nodeDescriptor) :: ds))
      else if inherited_name (type nodeDescriptor) then Unspecified
      else Throw (Error ("Node type " +:+ type nodeDescriptor +:+ " not found"))
  end.

Fixpoint wire_all (nodes : gmap string TaskNode) (consumerId key : string)
    (es : list NodeInput) : Result (list Subscription) :=
  match es with
  | [] => Ok []
  | v :: rest =>
      bind (transformEvent nodes consumerId key (node v) (Some (out v))) (fun s =>
      bind (wire_all nodes consumerId key rest) (fun ss => Ok (s :: ss)))
  end.

(** The callback over [Object.entries(nodeDescriptor.in)] (lines 62-85).
    [typeof value === "object"] holds for an edge and for an array; on an
    array [value.node] and [value.out] are [undefined], so the node looked
    up is [nodes["undefined"]]. *)
Definition wire_entry (nodes : gmap string TaskNode) (consumerId key : string)
    (value : InValue) : Result (list Subscription) :=
  bind (match value with
        | Edge e =>
            bind (transformEvent nodes consumerId key (node e) (Some (out e)))
                 (fun s => Ok [s])
        | EdgeList _ =>
            bind (transformEvent nodes consumerId key "undefined" None)
                 (fun s => Ok [s])
        | Scalar _ => Ok []
        end) (fun first =>
  bind (match value with
        | EdgeList es => wire_all nodes consumerId key es
        | _ => Ok []
        end) (fun second => Ok (first ++ second))).

Fixpoint wire_entries (nodes : gmap string TaskNode) (consumerId : string)
    (entries : list (string * InValue)) : Result (list Subscription) :=
  match entries with
  | [] => Ok []
  | (key, value) :: rest =>
      bind (wire_entry nodes consumerId key value) (fun ss =>
      bind (wire_entries nodes consumerId rest) (fun ss' => Ok (ss ++ ss')))
  end.

(** Second pass (lines 56-86). *)
Fixpoint connect (nodes : gmap string TaskNode) (ds : list TaskNodeDescriptor)
    : Result (list Subscription) :=
  match ds with
  | [] => Ok []
  | nodeDescriptor :: rest =>
      bind (match in_ nodeDescriptor with
            | Some entries =>
                wire_entries nodes (default "" (id nodeDescriptor)) entries
            | None => Ok []
            end) (fun ss =>
      bind (connect nodes rest) (fun ss' => Ok (ss ++ ss')))
  end.

Definition compile (workflow : list TaskNodeDescriptor) : Result CompileContext :=
  bind (instantiate workflow ∅ ∅) (fun '(nodes, counts, ds) =>
  bind (connect nodes ds) (fun subscriptions =>
  Ok (mkContext nodes counts subscriptions))).

End Compiler.

(** ** Tool registries (toolRouter.ts, lines 24-92; agent loop, lines 405-425 and 472-483) *)

Module Registry.
Import Canon Tools Adapter.

(** [const tools = { ...set.tools }] *)
Definition create (tools : option (gmap string ToolHandler))
    : gmap string ToolHandler :=
  default ∅ tools.

(** [tools[name] = handler], for a name other than [__proto__] (that
    assignment sets the table's prototype and stores no key). *)
Definition registerTool (tools : gmap string ToolHandler) (name : string)
    (handler : ToolHandler) : gmap string ToolHandler :=
  <[name := handler]> tools.

(** [delete tools[name]]: the table's own key goes, what it inherits
    stays. *)
Definition unregisterTool (tools : gmap string ToolHandler) (name : string)
    : gmap string ToolHandler :=
  delete name tools.

(** The agent loop keeps the definitions it advertises to the model in
    an array beside the handler table. *)
Record AgentTools := mkAgentTools {
  toolDefinitions : list ToolDefinition;
  toolHandlers : gmap string ToolHandler
}.

(** [[...(set.tools || [])]] and [{ ...(set.toolHandlers || {}) }] *)
Definition agent_create (tools : option (list ToolDefinition))
    (handlers : option (gmap string ToolHandler)) : AgentTools :=
  {| toolDefinitions := default [] tools; toolHandlers := default ∅ handlers |}.

(** [registerTool] of the agent loop: push the definition, set the handler. *)
Definition agent_registerTool (t : AgentTools) (definition : ToolDefinition)
    (handler : ToolHandler) : AgentTools :=
  {| toolDefinitions := toolDefinitions t ++ [definition];
     toolHandlers := <[td_name definition := handler]> (toolHandlers t) |}.

(** [toolDefinitions.findIndex(t => t.name === name)] followed by
    [splice(index, 1)]: the first definition of that name is removed. *)
Fixpoint remove_first (name : string) (defs : list ToolDefinition)
    : list ToolDefinition :=
  match defs with
  | [] => []
  | d :: rest =>
      if String.eqb (td_name d) name then rest else d :: remove_first name rest
  end.

Definition agent_unregisterTool (t : AgentTools) (name : string) : AgentTools :=
  {| toolDefinitions := remove_first name (toolDefinitions t);
     toolHandlers := delete name (toolHandlers t) |}.

End Registry.

(** ** Reading the agent loop's event trace *)

Module AgentTrace.
Import Canon Tools Agent.

(** The two events that end the handling of an input. *)
Definition is_final (e : Emitted) : bool :=
  match e with
  | data _ _ _ _ _ | error _ => true
  | _ => false
  end.

(** The [tool_use] block that carries a tool call. *)
Definition as_block (c : ToolCall) : ContentBlock :=
  tool_use (tc_id c) (tc_name c) (tc_input c).

End AgentTrace.

(** ** Reading a workflow: what the compiler is expected to build *)

Module Wiring.
Import Canon Compiler.

(** [nodeTypes[nodeDescriptor.type]] exists. *)
Definition known (d : TaskNodeDescriptor) : bool :=
  existsb (String.eqb (type d)) nodeTypes.

(** The descriptors of type [t]. *)
Definition count_type (t : string) (ds : list TaskNodeDescriptor) : nat :=
  length (List.filter (fun d => String.eqb (type d) t) ds).

(** The descriptor carries an id of its own (a non-empty string). *)
Definition has_id (d : TaskNodeDescriptor) : bool :=
  match id d with Some (String _ _) => true | _ => false end.

(** The forwarding subscriptions the single-edge entries of an [in] map
    ask for, in entry order. *)
Definition edges_of_entries (consumerId : string)
    (entries : list (string * InValue)) : list Subscription :=
  flat_map (fun entry =>
              match snd entry with
              | Edge e => [mkSubscription consumerId (fst entry) (node e) (Some (out e))]
              | _ => []
              end) entries.

Definition declared_edges (ds : list TaskNodeDescriptor) : list Subscription :=
  flat_map (fun d =>
              match in_ d with
              | Some entries => edges_of_entries (default "" (id d)) entries
              | None => []
              end) ds.

(** The entries of a descriptor's [in] map. *)
Definition entries_of (d : TaskNodeDescriptor) : list (string * InValue) :=
  default [] (in_ d).

(** An entry the second pass can wire: an edge from an existing node
    that can be piped, or a value that is not an object. *)
Definition wirable (nodes : gmap string TaskNode) (entry : string * InValue)
    : Prop :=
  match snd entry with
  | Edge e => exists n, nodes !! node e = Some n /\ has_pipe n = true
  | Scalar _ => True
  | EdgeList _ => False
  end.

Definition pipe_of_undefined : Thrown :=
  TypeError "Cannot read properties of undefined (reading 'pipe')".

Definition pipe_not_a_function : Thrown :=
  TypeError "outputNode.pipe is not a function".

(** The two ways [outputNode.pipe(s)] fails. *)
Definition pipe_failure (t : Thrown) : Prop :=
  t = pipe_of_undefined \/ t = pipe_not_a_function.

(** The second pass returns or fails in [outputNode.pipe(s)]. *)
Definition wired {A} (r : Result A) : Prop :=
  (exists a, r = Ok a) \/ (exists t, r = Throw t /\ pipe_failure t).

End Wiring.

(** ** Transport node (fetch.ts): templates and the request it builds *)

Module Fetch.
Import Canon.

(** [\w]: a letter, a digit or the underscore. *)
Definition is_word (c : ascii) : bool :=
  let n := nat_of_ascii c in
  (Nat.leb 48 n && Nat.leb n 57) || (Nat.leb 65 n && Nat.leb n 90)
  || (Nat.leb 97 n && Nat.leb n 122) || Nat.eqb n 95.

(** [\w+], greedy: the longest run of word characters and what follows. *)
Fixpoint span_word (s : string) : string * string :=
  match s with
  | String c rest =>
      if is_word c
      then let '(w, r) := span_word rest in (String c w, r)
      else (EmptyString, s)
  | EmptyString => (EmptyString, EmptyString)
  end.

(** A match of [\[\[(\w+)\]\]] starting at the first character: the key
    and the text after the match.  No word character is a bracket, so the
    greedy run is the only candidate for the key. *)
Definition match_here (s : string) : option (string * string) :=
  match s with
  | String "[" (String "[" body) =>
      match span_word body with
      | (String k ks, String "]" (String "]" tail)) => Some (String k ks, tail)
      | _ => None
      end
  | _ => None
  end.

Section Templates.
(** The built-in [String]. *)
Variable String_of : JSValue -> string.
(** The input object is a plain object: its own keys, and the members
    every object inherits.  [inherited_text key = Some text] says that
    [key] names such a member and that [String] of it is [text]. *)
Variable inherited_text : string -> option string.
Variable data : gmap string JSValue.

(** [data[key]], when it is not [undefined], under [String]. *)
Definition lookup_text (key : string) : option string :=
  match data !! key with
  | Some v => Some (String_of v)
  | None => inherited_text key
  end.

(** The callback of [replace]: [data[key] !== undefined ? String(data[key]) : match] *)
Definition replacement (key : string) : string :=
  match lookup_text key with
  | Some text => text
  | None => "[[" +:+ key +:+ "]]"
  end.

(** [template.replace(/\[\[(\w+)\]\]/g, ...)]: matches are looked for from
    left to right, a replacement is not scanned again.  [fuel] bounds the
    number of steps; each step consumes at least one character. *)
Fixpoint replace_from (fuel : nat) (template : string) : string :=
  match fuel with
  | 0 => template
  | S fuel =>
      match match_here template with
      | Some (key, tail) => replacement key +:+ replace_from fuel tail
      | None =>
          match template with
          | String c rest => String c (replace_from fuel rest)
          | EmptyString => EmptyString
          end
      end
  end.

Definition replacePlaceholders (template : string) : string :=
  replace_from (String.length template) template.

(** [FetchConfig] (lines 3-8). *)
Record FetchConfig := mkFetchConfig {
  url : option string;
  method : option string;
  headers : option (list (string * string));
  body : option string
}.

(** [replaceInObject] (lines 24-42) on a value of type [FetchConfig]:
    every string is replaced, the header names are kept. *)
Definition replaceInObject (set : FetchConfig) : FetchConfig :=
  {| url := replacePlaceholders <$> url set;
     method := replacePlaceholders <$> method set;
     headers := (fun hs => map (fun h => (fst h, replacePlaceholders (snd h))) hs)
                <$> headers set;
     body := replacePlaceholders <$> body set |}.

(** The arguments of the call to [fetch]. *)
Record Request := mkRequest {
  req_url : string;
  req_method : string;
  req_headers : option (list (string * string));
  req_body : option string
}.

Inductive Outcome :=
| Sends (r : Request)
| EmitsError (message : string).

(** A string option read as a condition: absent and empty are falsy. *)
Definition given (o : option string) : option string :=
  match o with
  | Some s => if truthy s then Some s else None
  | None => None
  end.

(** The ["input"] handler up to the call of [fetch] (lines 94-115). *)
Definition on_input (set : FetchConfig) : Outcome :=
  let config := replaceInObject set in
  match given (url config) with
  | None => EmitsError "URL is required for fetch node"
  | Some url =>
      let method := default "GET" (given (method config)) in
      Sends {| req_url := url;
               req_method := method;
               req_headers := headers config;
               req_body :=
                 match given (body config) with
                 | Some b =>
                     if negb (String.eqb method "GET") && negb (String.eqb method "HEAD")
                     then Some b else None
                 | None => None
                 end |}
  end.

(** The keys of the placeholders [replace] finds in a template, from
    left to right. *)
Fixpoint keys_from (fuel : nat) (template : string) : list string :=
  match fuel with
  | 0 => []
  | S fuel =>
      match match_here template with
      | Some (key, tail) => key :: keys_from fuel tail
      | None =>
          match template with
          | String _ rest => keys_from fuel rest
          | EmptyString => []
          end
      end
  end.

Definition placeholders (template : string) : list string :=
  keys_from (String.length template) template.

(** The strings of a configuration. *)
Definition templates (set : FetchConfig) : list string :=
  match url set with Some u => [u] | None => [] end
  ++ match method set with Some m => [m] | None => [] end
  ++ match headers set with Some hs => map snd hs | None => [] end
  ++ match body set with Some b => [b] | None => [] end.

End Templates.

(** [String(Object.prototype.constructor)], the inherited member the
    examples name. *)
Definition inherits_constructor (key : string) : option string :=
  if String.eqb key "constructor"
  then Some "function Object() { [native code] }"
  else None.

(** The string has no opening bracket. *)
Fixpoint no_bracket (s : string) : bool :=
  match s with
  | String c rest => negb (Ascii.eqb c "[") && no_bracket rest
  | EmptyString => true
  end.

(** The string is a non-empty run of word characters. *)
Fixpoint all_word (s : string) : bool :=
  match s with
  | String c rest => is_word c && all_word rest
  | EmptyString => true
  end.

Definition is_key (s : string) : bool :=
  truthy s && all_word s.

End Fetch.

(** * Theorems *)

Section MemoryFacts.
Import Canon Memory.

Lemma addMessage_length_le set messages m max :
  maxMessages set = Some max -> 0 < max ->
  length messages <= max ->
  length (addMessage set messages m) <= max.
Proof.
  intros Hmax Hpos Hlen. unfold addMessage. rewrite Hmax.
  destruct max as [|k]; [lia|].
  rewrite length_app. simpl length.
  destruct (Nat.ltb (S k) (length messages + 1)) eqn:E.
  - apply Nat.ltb_lt in E. unfold splice.
    rewrite length_app, length_take, length_drop, length_app. simpl length.
    destruct (head_is_system _); lia.
  - apply Nat.ltb_ge in E. rewrite length_app in *. simpl in *. lia.
Qed.

Lemma addMessage_keeps_head set sys rest m :
  role sys = system ->
  exists rest', addMessage set (sys :: rest) m = sys :: rest'.
Proof.
  intros Hsys. unfold addMessage.
  destruct (maxMessages set) as [[|k]|]; try (eexists; reflexivity).
  destruct (Nat.ltb (S k) _); [|eexists; reflexivity].
  simpl head_is_system. rewrite Hsys. simpl.
  unfold splice. simpl. eexists; reflexivity.
Qed.

Lemma clear_length_le messages : length (clear messages) <= 1.
Proof.
  destruct messages as [|m ms]; simpl; [lia|].
  destruct (Role_eqb _ _); simpl; lia.
Qed.

End MemoryFacts.

Section MemoryInvariant.
Import Canon Memory.

Variable set : MemoryConfig.

Lemma init_ok : store_ok set (init set).
Proof.
  unfold store_ok, init. split.
  - intros max _ Hpos. destruct (prompt_given set); simpl; lia.
  - intros s Hs. rewrite Hs. eexists; reflexivity.
Qed.

Lemma addMessage_ok messages m :
  store_ok set messages -> store_ok set (addMessage set messages m).
Proof.
  intros [Hlen Hhead]. split.
  - intros max Hmax Hpos. eapply addMessage_length_le; eauto.
  - intros s Hs. destruct (Hhead s Hs) as [rest ->].
    apply addMessage_keeps_head. reflexivity.
Qed.

Lemma clear_ok messages :
  store_ok set messages -> store_ok set (clear messages).
Proof.
  intros [Hlen Hhead]. split.
  - intros max _ Hpos. pose proof (clear_length_le messages). lia.
  - intros s Hs. destruct (Hhead s Hs) as [rest ->]. simpl.
    eexists; reflexivity.
Qed.

Lemma run_ok ops : store_ok set (run set ops).
Proof.
  unfold run. generalize (init set) init_ok.
  induction ops as [|op ops IH]; intros messages Hok; simpl; [exact Hok|].
  apply IH. destruct op; simpl; auto using addMessage_ok, clear_ok.
Qed.

Lemma addAll_run ms : addAll set ms = run set (map Add ms).
Proof.
  unfold addAll, run. generalize (init set).
  induction ms as [|m ms IH]; intros l; simpl; [reflexivity|apply IH].
Qed.

End MemoryInvariant.

(** C3.  With a positive [maxMessages] bound [m], after any sequence of
    [addMessage] calls the store holds at most [m] messages, and when a
    system prompt was given at construction the first stored message is
    that system message. *)
Theorem C3_retention_bound_and_pinned_prompt :
  forall (set : Memory.MemoryConfig) (m : nat) (added : list Canon.Message),
    Memory.maxMessages set = Some m -> 0 < m ->
    length (Memory.getMessages (Memory.addAll set added)) <= m
    /\ (forall s, Memory.prompt_given set = Some s ->
          head (Memory.getMessages (Memory.addAll set added))
          = Some (Canon.mkMessage Canon.system (Canon.Str s))).
Proof.
  intros set m added Hmax Hpos. unfold Memory.getMessages.
  rewrite addAll_run. destruct (run_ok set (map Memory.Add added)) as [Hlen Hhead].
  split; [eauto|].
  intros s Hs. destruct (Hhead s Hs) as [rest ->]. reflexivity.
Qed.

Lemma C3_witness :
  let set := Memory.mkConfig (Some 3) (Some "System message") in
  let added := [Canon.mkMessage Canon.user (Canon.Str "Message 1");
                Canon.mkMessage Canon.assistant (Canon.Str "Response 1");
                Canon.mkMessage Canon.user (Canon.Str "Message 2");
                Canon.mkMessage Canon.assistant (Canon.Str "Response 2")] in
  length (Memory.getMessages (Memory.addAll set added)) <= 3
  /\ (forall s, Memory.prompt_given set = Some s ->
        head (Memory.getMessages (Memory.addAll set added))
        = Some (Canon.mkMessage Canon.system (Canon.Str s))).
Proof.
  intros set added.
  apply (C3_retention_bound_and_pinned_prompt set 3 added); [reflexivity | lia].
Defined.

(** C7 as the spec words it fails: with no system prompt configured, a
    first message of role [system] that a caller added survives [clear]. *)
Lemma C7_counterexample :
  let set := Memory.mkConfig None None in
  let m := Canon.mkMessage Canon.system (Canon.Str "be brief") in
  Memory.prompt_given set = None
  /\ Memory.getMessages (Memory.clear (Memory.run set [Memory.Add m])) = [m]
  /\ Memory.getMessages (Memory.clear (Memory.run set [Memory.Add m])) <> [].
Proof. cbv. repeat split; discriminate. Qed.

(** C7, amended.  Right after [clear], [getMessages] returns at most one
    message: the configured system message when a prompt was configured;
    otherwise the first stored message when its role is [system], and
    nothing when it is not. *)
Theorem C7_clear_keeps_only_leading_system :
  forall (set : Memory.MemoryConfig) (ops : list Memory.Op),
    let before := Memory.run set ops in
    let after := Memory.getMessages (Memory.clear before) in
    length after <= 1
    /\ (forall s, Memory.prompt_given set = Some s ->
          after = [Canon.mkMessage Canon.system (Canon.Str s)])
    /\ (Memory.head_is_system before = false -> after = [])
    /\ (forall m rest, before = m :: rest -> Canon.role m = Canon.system ->
          after = [m]).
Proof.
  intros set ops before after. subst after. unfold Memory.getMessages.
  split; [apply clear_length_le|]. split; [|split].
  - intros s Hs. destruct (run_ok set ops) as [_ Hhead].
    destruct (Hhead s Hs) as [rest Hrest]. subst before. rewrite Hrest.
    reflexivity.
  - destruct before as [|m rest]; simpl; [reflexivity|].
    intros ->. reflexivity.
  - intros m rest -> Hm. simpl. rewrite Hm. reflexivity.
Qed.

Lemma C7_witness :
  let set := Memory.mkConfig None (Some "System message") in
  let ops := [Memory.Add (Canon.mkMessage Canon.user (Canon.Str "Hello"))] in
  Memory.getMessages (Memory.clear (Memory.run set ops))
  = [Canon.mkMessage Canon.system (Canon.Str "System message")].
Proof.
  intros set ops.
  apply (proj1 (proj2 (C7_clear_keeps_only_leading_system set ops))
           "System message").
  reflexivity.
Defined.

Section EventFacts.
Import Canon Events.

Lemma invoked_app event a b :
  invoked event (a ++ b) = invoked event a ++ invoked event b.
Proof. unfold invoked. apply omap_app. Qed.

(** Every handler of the list is called once, in order, as long as the
    catch block calls no handler of the same event. *)
Lemma invoked_forEach_try hs event data on_throw :
  (forall e, invoked event (on_throw e) = []) ->
  invoked event (forEach_try hs event data on_throw) = map hid hs.
Proof.
  intros Hquiet. unfold forEach_try.
  induction hs as [|h hs IH]; simpl; [reflexivity|].
  rewrite String.eqb_refl. simpl. f_equal.
  rewrite invoked_app, IH.
  destruct (body h data); simpl; [rewrite Hquiet|]; reflexivity.
Qed.

Lemma invoked_other_event hs event event' data on_throw :
  String.eqb event' event = false ->
  (forall e, invoked event (on_throw e) = []) ->
  invoked event (forEach_try hs event' data on_throw) = [].
Proof.
  intros Hne Hquiet. unfold forEach_try.
  induction hs as [|h hs IH]; simpl; [reflexivity|].
  rewrite Hne. rewrite invoked_app, IH.
  destruct (body h data); simpl; [rewrite Hquiet|]; reflexivity.
Qed.

(** The catch block of a throwing handler is part of the trace. *)
Lemma catch_runs hs event data on_throw h e a :
  In h hs -> body h data = Some e -> In a (on_throw e) ->
  In a (forEach_try hs event data on_throw).
Proof.
  intros Hin Hthrow Ha. unfold forEach_try. apply in_flat_map.
  exists h. split; [exact Hin|]. right. rewrite Hthrow. exact Ha.
Qed.

Lemma call_runs hs event data on_throw h :
  In h hs -> In (Invoke event (hid h) data) (forEach_try hs event data on_throw).
Proof.
  intros Hin. unfold forEach_try. apply in_flat_map.
  exists h. split; [exact Hin|]. left. reflexivity.
Qed.

Lemma emit_invokes_all listeners event data :
  invoked event (fst (emit listeners event data))
  = map hid (handlers listeners event).
Proof.
  unfold emit. simpl fst. apply invoked_forEach_try. intros e.
  destruct (String.eqb event "error") eqn:E; [reflexivity|].
  apply invoked_other_event; [|reflexivity].
  rewrite String.eqb_sym. exact E.
Qed.

End EventFacts.




Section InputNodeFacts.
Import Canon Events Streams.

Lemma handlers_on listeners event h event' :
  handlers (on listeners event h) event'
  = if decide (event = event') then handlers listeners event' ++ [h]
    else handlers listeners event'.
Proof.
  unfold on, handlers at 1. rewrite lookup_insert.
  destruct (decide (event = event')) as [->|]; reflexivity.
Qed.

Lemma handlers_on_mono listeners event h event' h0 :
  In h0 (handlers listeners event') ->
  In h0 (handlers (on listeners event h) event').
Proof.
  intros Hin. rewrite handlers_on.
  destruct (decide _); [apply in_or_app; left|]; exact Hin.
Qed.

Lemma call_status s c : status (call s c) = status s.
Proof. destruct c; reflexivity. Qed.

Lemma calls_status cs s : status (fold_left call cs s) = status s.
Proof.
  revert s. induction cs as [|c cs IH]; intros s; simpl; [reflexivity|].
  rewrite IH. apply call_status.
Qed.

Lemma call_keeps_handler s c event h0 :
  In h0 (handlers (rs_listeners (inner s)) event) ->
  In h0 (handlers (rs_listeners (inner (call s c))) event).
Proof.
  intros Hin. destruct c; simpl; auto using handlers_on_mono.
Qed.

Lemma calls_subscribed cs s h :
  In (COn "data" h) cs \/ In h (handlers (rs_listeners (inner s)) "data") ->
  In h (handlers (rs_listeners (inner (fold_left call cs s))) "data").
Proof.
  revert s. induction cs as [|c cs IH]; intros s [Hc|Hs]; simpl.
  - destruct Hc.
  - exact Hs.
  - apply IH. destruct Hc as [->|Hc]; [right|left; exact Hc].
    simpl. rewrite handlers_on. rewrite decide_True by reflexivity.
    apply in_or_app. right. left. reflexivity.
  - apply IH. right. apply call_keeps_handler. exact Hs.
Qed.

End InputNodeFacts.

(** C10.  Whatever calls an input node receives, [resume] and [pause]
    among them, its own [status] field still reads ["paused"]; the calls
    change the [status] of the inner read stream.  [trigger(data)] calls
    every handler subscribed to ["data"], in order, with [data]. *)
Theorem C10_input_status_stays_paused :
  forall (cs : list Streams.Call) (data : Events.Data),
    let s := Streams.calls cs in
    Streams.status s = Streams.paused
    /\ Streams.status (Streams.resume s) = Streams.paused
    /\ Streams.status (Streams.pause s) = Streams.paused
    /\ Streams.rs_status (Streams.inner (Streams.resume s)) = Streams.open
    /\ Events.invoked "data" (fst (Streams.trigger s data))
       = map Events.hid
           (Events.handlers (Streams.rs_listeners (Streams.inner s)) "data")
    /\ (forall h, In (Streams.COn "data" h) cs ->
          In (Events.Invoke "data" (Events.hid h) data)
             (fst (Streams.trigger s data))).
Proof.
  intros cs data s. subst s. unfold Streams.calls.
  repeat split.
  - apply calls_status.
  - simpl. apply calls_status.
  - simpl. apply calls_status.
  - apply emit_invokes_all.
  - intros h Hin. unfold Streams.trigger, Events.emit. simpl fst.
    apply call_runs. apply calls_subscribed. left. exact Hin.
Qed.

Lemma C10_witness :
  let h := Events.mkHandler 7 (fun _ => None) in
  let cs := [Streams.COn "data" h; Streams.CResume; Streams.CPause;
             Streams.CResume] in
  In (Events.Invoke "data" 7 (Canon.JSString "test"))
     (fst (Streams.trigger (Streams.calls cs) (Canon.JSString "test"))).
Proof.
  intros h cs.
  apply (proj2 (proj2 (proj2 (proj2 (proj2
           (C10_input_status_stays_paused cs (Canon.JSString "test")))))) h).
  left. reflexivity.
Defined.

Section PromiseAllFacts.
Import Tools.
Context {A : Type}.
Variable values : list A.

Local Abbreviation settle := (Tools.settle values).

Lemma settle_length slots k : length (settle slots k) = length slots.
Proof.
  unfold Tools.settle. destruct (values !! k); [apply length_insert|reflexivity].
Qed.

Lemma settled_length order slots :
  length (fold_left settle order slots) = length slots.
Proof.
  revert slots. induction order as [|k order IH]; intros slots; simpl.
  - reflexivity.
  - rewrite IH. apply settle_length.
Qed.

(** A written slot keeps its value: a promise settles to one value. *)
Lemma settled_stays order slots j v :
  values !! j = Some v -> slots !! j = Some (Some v) ->
  fold_left settle order slots !! j = Some (Some v).
Proof.
  intros Hv. revert slots.
  induction order as [|k order IH]; intros slots Hj; simpl; [exact Hj|].
  apply IH. unfold Tools.settle. destruct (values !! k) as [w|] eqn:Hk; [|exact Hj].
  destruct (decide (k = j)) as [->|Hne].
  - rewrite Hv in Hk. injection Hk as <-.
    apply list_lookup_insert_eq. eapply lookup_lt_Some; eauto.
  - rewrite list_lookup_insert_ne by exact Hne. exact Hj.
Qed.

Lemma settled_written order slots j v :
  values !! j = Some v -> j < length slots -> In j order ->
  fold_left settle order slots !! j = Some (Some v).
Proof.
  intros Hv. revert slots.
  induction order as [|k order IH]; intros slots Hlen Hin; simpl.
  - destruct Hin.
  - destruct (decide (k = j)) as [->|Hne].
    + apply settled_stays; [exact Hv|]. unfold Tools.settle. rewrite Hv.
      apply list_lookup_insert_eq. exact Hlen.
    + destruct Hin as [->|Hin]; [congruence|].
      apply IH; [rewrite settle_length; exact Hlen|exact Hin].
Qed.

Lemma all_settle_In n order j :
  all_settle n order = true -> j < n -> In j order.
Proof.
  unfold all_settle. rewrite forallb_forall. intros H Hj.
  specialize (H j). rewrite in_seq in H.
  assert (Hex : existsb (Nat.eqb j) order = true) by (apply H; lia).
  apply existsb_exists in Hex. destruct Hex as [x [Hx Heq]].
  apply Nat.eqb_eq in Heq. subst x. exact Hx.
Qed.

(** Once every promise has settled, in whatever order, the delivered
    array is the array of their values in the order of the promises. *)
Lemma Promise_all_complete order :
  all_settle (length values) order = true ->
  Promise_all values order = Some values.
Proof.
  intros Hall. unfold Promise_all.
  assert (Hslots : fold_left settle order (replicate (length values) None)
                   = Some <$> values).
  { apply list_eq. intros j. rewrite list_lookup_fmap.
    destruct (values !! j) as [v|] eqn:Hv; simpl.
    - apply settled_written; [exact Hv| |].
      + rewrite length_replicate. eapply lookup_lt_Some; eauto.
      + eapply all_settle_In; eauto. eapply lookup_lt_Some; eauto.
    - apply lookup_ge_None. rewrite settled_length, length_replicate.
      apply lookup_ge_None. exact Hv. }
  rewrite Hslots. apply mapM_fmap_Some. reflexivity.
Qed.

(** A promise that never settles keeps the whole batch pending. *)
Lemma settled_unwritten order slots j :
  ~ In j order -> fold_left settle order slots !! j = slots !! j.
Proof.
  revert slots. induction order as [|k order IH]; intros slots Hnot; simpl.
  - reflexivity.
  - rewrite IH by (intros Hin; apply Hnot; right; exact Hin).
    unfold Tools.settle. destruct (values !! k); [|reflexivity].
    apply list_lookup_insert_ne. intros ->. apply Hnot. left. reflexivity.
Qed.

Lemma Promise_all_pending order j :
  j < length values -> ~ In j order -> Promise_all values order = None.
Proof.
  intros Hj Hnot. unfold Promise_all.
  destruct (mapM id _) as [vs|] eqn:E; [|reflexivity]. exfalso.
  apply mapM_Some_1 in E.
  pose proof (settled_unwritten order (replicate (length values) None) j Hnot) as Hslot.
  rewrite lookup_replicate_2 in Hslot by exact Hj.
  destruct (Forall2_lookup_l _ _ _ _ _ E Hslot) as [v [_ Hv]].
  discriminate Hv.
Qed.

End PromiseAllFacts.

Section DispatchFacts.
Import Canon Tools.
Variable JSON_stringify : JSValue -> Serialized.
Variable String_of : JSValue -> string.
Variable inherited : string -> option ToolHandler.

Lemma runToolCall_id tools toolCall :
  tool_use_id (fst (runToolCall JSON_stringify String_of inherited tools toolCall))
  = tc_id toolCall.
Proof.
  unfold runToolCall.
  destruct (lookup_handler inherited tools (tc_name toolCall)) as [h|]; simpl.
  - destruct (h (tc_input toolCall)) as [[]|]; try reflexivity.
    all: destruct (JSON_stringify _); reflexivity.
  - reflexivity.
Qed.

Lemma awaited_results_ids tools toolCalls k :
  tool_use_id <$> awaited_results JSON_stringify String_of inherited tools toolCalls !! k
  = tc_id <$> toolCalls !! k.
Proof.
  unfold awaited_results. rewrite list_lookup_fmap.
  destruct (toolCalls !! k); simpl; [|reflexivity].
  f_equal. apply runToolCall_id.
Qed.

Lemma executeTools_complete tools toolCalls order :
  all_settle (length toolCalls) order = true ->
  executeTools JSON_stringify String_of inherited tools toolCalls order
  = Some (awaited_results JSON_stringify String_of inherited tools toolCalls).
Proof.
  intros Hall. unfold executeTools, awaited_results.
  apply Promise_all_complete. rewrite length_map. exact Hall.
Qed.

(** A name the table holds itself is answered by the handler stored
    under it. *)
Lemma lookup_handler_own tools name h :
  tools !! name = Some h -> lookup_handler inherited tools name = Some h.
Proof. unfold lookup_handler. intros ->. reflexivity. Qed.

(** A name the table does not hold is answered by what it inherits. *)
Lemma lookup_handler_missing tools name :
  tools !! name = None -> lookup_handler inherited tools name = inherited name.
Proof. unfold lookup_handler. intros ->. reflexivity. Qed.

End DispatchFacts.

(** C1.  For a batch of N tool calls whose handlers all settle, in any
    order, the router's ["input"] handler and the agent loop's
    [executeTools] deliver N results, and result [k] carries the id of
    call [k]. *)
Theorem C1_results_follow_call_order :
  forall (JSON_stringify : Canon.JSValue -> Tools.Serialized)
         (String_of : Canon.JSValue -> string)
         (inherited : string -> option Tools.ToolHandler)
         (tools : gmap string Tools.ToolHandler)
         (toolCalls : list Tools.ToolCall) (order : list nat),
    Tools.all_settle (length toolCalls) order = true ->
    (exists rs,
        Tools.executeTools JSON_stringify String_of inherited tools toolCalls order
        = Some rs
        /\ length rs = length toolCalls
        /\ forall k, Tools.tool_use_id <$> rs !! k = Tools.tc_id <$> toolCalls !! k)
    /\ (exists d,
        Tools.toolRouter JSON_stringify String_of inherited tools (Some toolCalls) order
        = Some d
        /\ length (Tools.results d) = length toolCalls
        /\ forall k, Tools.tool_use_id <$> Tools.results d !! k
                     = Tools.tc_id <$> toolCalls !! k).
Proof.
  intros JSON_stringify String_of inherited tools toolCalls order Hall. split.
  - exists (Tools.awaited_results JSON_stringify String_of inherited tools toolCalls).
    split; [apply executeTools_complete; exact Hall|].
    split; [unfold Tools.awaited_results; apply length_map|].
    apply awaited_results_ids.
  - unfold Tools.toolRouter. simpl default.
    destruct toolCalls as [|tc rest] eqn:Hcalls.
    + simpl. eexists. split; [reflexivity|]. split; [reflexivity|].
      intros k. reflexivity.
    + rewrite <- Hcalls in *.
      replace (Nat.eqb (length toolCalls) 0) with false
        by (subst toolCalls; reflexivity).
      pose proof (executeTools_complete JSON_stringify String_of inherited tools
                    toolCalls order Hall) as Hexec.
      unfold Tools.executeTools in Hexec. rewrite Hexec.
      eexists. split; [reflexivity|]. simpl Tools.results.
      split; [unfold Tools.awaited_results; apply length_map|].
      apply awaited_results_ids.
Qed.

Lemma C1_witness :
  let stringify := fun _ : Canon.JSValue => Tools.JsonText "{}" in
  let String_of := fun _ : Canon.JSValue => "[object Object]" in
  let inherited := fun _ : string => @None Tools.ToolHandler in
  let slow := fun _ : Canon.JSValue => Tools.Fulfilled (Canon.JSString "slow") in
  let fast := fun _ : Canon.JSValue => Tools.Fulfilled (Canon.JSString "fast") in
  let tools : gmap string Tools.ToolHandler :=
    <["slow" := slow]> (<["fast" := fast]> ∅) in
  let toolCalls := [Tools.mkToolCall "t1" "slow" Canon.JSNull;
                    Tools.mkToolCall "t2" "fast" Canon.JSNull;
                    Tools.mkToolCall "t3" "missing" Canon.JSNull] in
  exists rs,
    Tools.executeTools stringify String_of inherited tools toolCalls [2; 1; 0] = Some rs
    /\ length rs = 3
    /\ forall k, Tools.tool_use_id <$> rs !! k = Tools.tc_id <$> toolCalls !! k.
Proof.
  intros stringify String_of inherited slow fast tools toolCalls.
  apply (C1_results_follow_call_order stringify String_of inherited tools toolCalls
           [2; 1; 0]).
  reflexivity.
Defined.

Section LoopFacts.
Import Canon Tools Agent AgentTrace.
Variable JSON_stringify : JSValue -> Serialized.
Variable String_of : JSValue -> string.
Variable inherited : string -> option ToolHandler.
Variable callLLM : nat -> string -> list Message -> CallResult.
Variable toolHandlers : gmap string ToolHandler.
Variable set : AgentConfig.
Variable listeners : gmap string (list Subscriber).

Local Abbreviation run_loop :=
  (loop JSON_stringify String_of inherited callLLM toolHandlers set listeners).
Local Abbreviation M := (config_maxIterations set).
Local Abbreviation tool_turn :=
  (Agent.tool_turn JSON_stringify String_of inherited toolHandlers).
Local Abbreviation emit := (Agent.emit listeners).
Local Abbreviation thrown := (Agent.thrown listeners).

Lemma config_maxIterations_pos : 1 <= M.
Proof.
  unfold config_maxIterations. destruct (maxIterations set) as [[|n]|]; lia.
Qed.

Lemma loop_stop fuel key iteration st :
  M <= iteration ->
  run_loop fuel key iteration st = Some (emit st (error (limit_message set))).
Proof.
  intros Hge. assert (E : Nat.ltb iteration M = false) by (apply Nat.ltb_ge; lia).
  destruct fuel; simpl; rewrite E; reflexivity.
Qed.

Lemma loop_tool_turn fuel key iteration st r :
  iteration < M ->
  callLLM (length (modelCalls st)) key (messages st) = Replied r ->
  resp_stopReason r = "tool_use" -> resp_toolCalls r <> [] ->
  (forall e, event_name e = "iteration" -> thrown e = None) ->
  run_loop (S fuel) key iteration st
  = run_loop fuel key (S iteration) (tool_turn iteration st r).
Proof.
  intros Hlt Hcall Hstop Hcalls Hquiet.
  assert (E : Nat.ltb iteration M = true) by (apply Nat.ltb_lt; lia).
  cbn [loop]. rewrite E. cbn [calling modelCalls messages].
  rewrite length_app. cbn [length].
  replace (length (modelCalls st) + 1 - 1) with (length (modelCalls st)) by lia.
  rewrite Hcall. unfold Agent.emit. rewrite Hquiet by reflexivity.
  unfold Agent.tool_turn. rewrite Hstop.
  destruct (resp_toolCalls r) as [|tc rest] eqn:Htc; [congruence|].
  rewrite String.eqb_refl. cbn [negb orb length Nat.eqb].
  rewrite Hquiet by reflexivity. reflexivity.
Qed.

(** What one run of the loop adds to the state.  The events it publishes
    are iteration events followed by at most one final event; when no
    final event is published, an exception is on its way to the [catch]
    block; when one is, the exception is the one its subscribers threw. *)
Lemma loop_shape fuel : forall key iteration st,
  M - iteration <= fuel ->
  exists st' t, run_loop fuel key iteration st = Some (st', t)
  /\ (exists ms, messages st' = messages st ++ ms)
  /\ (exists evs fin,
        emitted st' = emitted st ++ evs ++ fin
        /\ Forall (fun e => is_final e = false) evs
        /\ ((exists final, fin = [final] /\ is_final final = true
                           /\ thrown final = t)
            \/ (fin = [] /\ exists caught, t = Some caught)))
  /\ (exists calls,
        modelCalls st' = modelCalls st ++ calls
        /\ length calls <= M - iteration
        /\ (iteration < M -> exists more, calls = messages st :: more)).
Proof.
  induction fuel as [|fuel IH]; intros key iteration st Hfuel.
  - rewrite loop_stop by lia. eexists _, _. split; [reflexivity|]. simpl.
    split; [exists []; rewrite app_nil_r; reflexivity|].
    split; [exists [], [error (limit_message set)]; repeat split; auto;
            left; eexists; repeat split|].
    exists []. rewrite app_nil_r. repeat split; [simpl; lia|lia].
  - destruct (Nat.ltb iteration M) eqn:E.
    2:{ apply Nat.ltb_ge in E. rewrite loop_stop by lia.
        eexists _, _. split; [reflexivity|]. simpl.
        split; [exists []; rewrite app_nil_r; reflexivity|].
        split; [exists [], [error (limit_message set)]; repeat split; auto;
                left; eexists; repeat split|].
        exists []. rewrite app_nil_r. repeat split; [simpl; lia|lia]. }
    apply Nat.ltb_lt in E. cbn [loop].
    replace (Nat.ltb iteration M) with true by (symmetry; apply Nat.ltb_lt; lia).
    destruct (callLLM _ key _) as [r|e].
    + unfold Agent.emit at 1.
      destruct (Agent.thrown listeners (iteration_llm_response _ _ _ _))
        as [c|] eqn:Hresp.
      * eexists _, _. split; [reflexivity|]. simpl.
        split; [eexists; reflexivity|].
        split; [eexists [_], []; split; [rewrite app_nil_r; reflexivity|];
                split; [repeat constructor|right; split; eauto]|].
        exists [messages st]. repeat split; [simpl; lia|eauto].
      * match goal with |- context [if ?c then _ else _] => destruct c end.
        -- eexists _, _. split; [reflexivity|]. simpl.
           split; [eexists; reflexivity|].
           split; [eexists [_], [_];
                   split; [rewrite <- app_assoc; reflexivity|];
                   split; [repeat constructor|left; eexists; repeat split]|].
           exists [messages st]. repeat split; [simpl; lia|eauto].
        -- unfold Agent.emit at 1.
           destruct (Agent.thrown listeners (iteration_tool_results _ _))
             as [c|] eqn:Hres.
           ++ eexists _, _. split; [reflexivity|]. simpl.
              split; [eexists; rewrite <- app_assoc; reflexivity|].
              split; [eexists [_; _], [];
                      split; [rewrite app_nil_r, <- app_assoc; reflexivity|];
                      split; [repeat constructor|right; split; eauto]|].
              exists [messages st]. repeat split; [simpl; lia|eauto].
           ++ match goal with |- context [run_loop fuel key ?i ?s] =>
                destruct (IH key i s)
                  as [st' [t [Hrun [[ms Hms] [[evs [fin [Hev [Hevs Hfin]]]]
                                              [calls [Hcalls [Hlen _]]]]]]]]
              end.
              { lia. }
              exists st', t. split; [exact Hrun|]. simpl in *.
              split; [eexists; rewrite Hms, <- !app_assoc; reflexivity|].
              split.
              { eexists (_ :: _ :: evs), fin.
                split; [rewrite Hev, <- !app_assoc; reflexivity|].
                split; [repeat constructor; exact Hevs|exact Hfin]. }
              exists (messages st :: calls).
              split; [rewrite Hcalls, <- app_assoc; reflexivity|].
              split; [simpl; lia|eauto].
    + eexists _, _. split; [reflexivity|]. simpl.
      split; [exists []; rewrite app_nil_r; reflexivity|].
      split; [exists [], []; split; [rewrite app_nil_r; reflexivity|];
              split; [constructor|right; split; eauto]|].
      exists [messages st]. repeat split; [simpl; lia|eauto].
Qed.

Hypothesis always_tool_use : forall n key msgs, exists r,
  callLLM n key msgs = Replied r
  /\ resp_stopReason r = "tool_use" /\ resp_toolCalls r <> [].
Hypothesis quiet_iteration : forall e, event_name e = "iteration" -> thrown e = None.

(** When every reply asks for tools and no subscriber of the iteration
    events throws, the loop makes one call for each remaining turn and
    then reports the limit. *)
Lemma loop_hits_limit d : forall fuel key iteration st,
  iteration + d = M -> d <= fuel ->
  exists st' evs,
    run_loop fuel key iteration st
    = Some (st', thrown (error (limit_message set)))
    /\ length (modelCalls st') = length (modelCalls st) + d
    /\ emitted st' = emitted st ++ evs ++ [error (limit_message set)]
    /\ (forall e, In e evs -> event_name e = "iteration").
Proof.
  induction d as [|d IH]; intros fuel key iteration st Hd Hfuel.
  - rewrite loop_stop by lia. exists (logged st (error (limit_message set))), [].
    split; [reflexivity|]. split; [simpl; lia|]. split; [reflexivity|].
    intros e [].
  - destruct fuel as [|fuel]; [lia|].
    destruct (always_tool_use (length (modelCalls st)) key (messages st))
      as [r [Hcall [Hstop Hcalls]]].
    rewrite (loop_tool_turn fuel key iteration st r) by (auto; lia).
    destruct (IH fuel key (S iteration) (tool_turn iteration st r))
      as [st' [evs [Hrun [Hlen [Hev Hevs]]]]]; [lia|lia|].
    eexists st', (_ :: _ :: evs). split; [exact Hrun|].
    split; [rewrite Hlen; simpl; rewrite length_app; simpl; lia|].
    split; [rewrite Hev; simpl; rewrite <- !app_assoc; reflexivity|].
    intros e [<-|[<-|He]]; [reflexivity|reflexivity|auto].
Qed.

End LoopFacts.

Lemma config_maxIterations_given set M :
  Agent.maxIterations set = Some M -> 1 <= M ->
  Agent.config_maxIterations set = M.
Proof.
  intros H Hpos. unfold Agent.config_maxIterations. rewrite H.
  destruct M; [lia|reflexivity].
Qed.

Lemma iteration_not_data e :
  Agent.event_name e = "iteration" -> Agent.is_data e = false.
Proof. destruct e; simpl; intros H; try reflexivity; discriminate. Qed.

(** C2, as stated, fails when a subscriber of the iteration events
    throws: with [maxIterations = 3] and a model that always asks for a
    tool, a handler registered with [on("iteration", ...)] that throws
    ends the run before the first model call, and what is published is
    the handler's exception, not the limit error. *)
Lemma C2_counterexample :
  let stringify := fun _ : Canon.JSValue => Tools.JsonText "{}" in
  let String_of := fun _ : Canon.JSValue => "[object Object]" in
  let reply := Agent.mkLLMResponse
                 [Canon.tool_use "t1" "infinite_tool" (Canon.JSObject [])]
                 [Tools.mkToolCall "t1" "infinite_tool" (Canon.JSObject [])]
                 "tool_use" in
  let callLLM := fun (_ : nat) (_ : string) (_ : list Canon.Message) =>
                   Agent.Replied reply in
  let toolHandlers : gmap string Tools.ToolHandler :=
    <["infinite_tool" := fun _ => Tools.Fulfilled (Canon.JSString "result")]> ∅ in
  let set := Agent.mkAgentConfig None (Some 3) None in
  let listeners : gmap string (list Agent.Subscriber) :=
    <["iteration" := [fun _ : Agent.Emitted => Some "observer failed"]]> ∅ in
  let inputData := Agent.mkInputData (Some "Go") None (Some "test-key") in
  let go := Canon.mkMessage Canon.user (Canon.Str "Go") in
  Agent.on_input stringify String_of Tools.inherits_toString callLLM toolHandlers
    set listeners inputData (Agent.initial set)
  = Some (Agent.mkAgentState [go]
            [Agent.iteration_start [go]; Agent.error "observer failed"] [],
          Agent.Returned)
  /\ ~ (exists st' ending,
          Agent.on_input stringify String_of Tools.inherits_toString callLLM
            toolHandlers set listeners inputData (Agent.initial set)
          = Some (st', ending)
          /\ length (Agent.modelCalls st') = 3).
Proof.
  intros stringify String_of reply callLLM toolHandlers set listeners inputData go.
  assert (E : Agent.on_input stringify String_of Tools.inherits_toString callLLM
                toolHandlers set listeners inputData (Agent.initial set)
              = Some (Agent.mkAgentState [go]
                        [Agent.iteration_start [go]; Agent.error "observer failed"] [],
                      Agent.Returned)) by (vm_compute; reflexivity).
  split; [exact E|].
  intros [st' [ending [Hrun Hlen]]]. rewrite E in Hrun.
  injection Hrun as <- _. discriminate Hlen.
Qed.

(** C2, amended.  With [maxIterations = M >= 1], an API key, a model that
    always answers [tool_use] with at least one tool call, and no
    subscriber of the iteration events that throws, handling an input
    makes exactly M model calls and then publishes the error
    "Max iterations (M) reached", without publishing a result: the events
    are iteration events, then that error, and after it only the error a
    subscriber of it may have thrown.  For M = 3 the message is
    "Max iterations (3) reached". *)
Theorem C2_iteration_limit :
  forall (JSON_stringify : Canon.JSValue -> Tools.Serialized)
         (String_of : Canon.JSValue -> string)
         (inherited : string -> option Tools.ToolHandler)
         (callLLM : nat -> string -> list Canon.Message -> Agent.CallResult)
         (toolHandlers : gmap string Tools.ToolHandler)
         (set : Agent.AgentConfig)
         (listeners : gmap string (list Agent.Subscriber))
         (inputData : Agent.InputData) (M : nat) (key : string),
    Agent.maxIterations set = Some M -> 1 <= M ->
    Agent.or_else (Agent.in_apiKey inputData) (Agent.given (Agent.apiKey set))
      = Some key ->
    (forall n k msgs, exists r,
        callLLM n k msgs = Agent.Replied r
        /\ Agent.resp_stopReason r = "tool_use"
        /\ Agent.resp_toolCalls r <> []) ->
    (forall e, Agent.event_name e = "iteration" ->
               Agent.thrown listeners e = None) ->
    let limit := Agent.error ("Max iterations (" +:+ pretty M +:+ ") reached") in
    exists st' ending iterations,
      Agent.on_input JSON_stringify String_of inherited callLLM toolHandlers
        set listeners inputData (Agent.initial set) = Some (st', ending)
      /\ length (Agent.modelCalls st') = M
      /\ Agent.emitted st'
         = iterations ++ limit ::
           match Agent.thrown listeners limit with
           | Some thrown => [Agent.error thrown]
           | None => []
           end
      /\ (forall e, In e iterations -> Agent.event_name e = "iteration")
      /\ (forall e, In e (Agent.emitted st') -> Agent.is_data e = false)
      /\ (M = 3 -> In (Agent.error "Max iterations (3) reached")
                      (Agent.emitted st')).
Proof.
  intros JSON_stringify String_of inherited callLLM toolHandlers set listeners
         inputData M key HM Hpos Hkey Hllm Hquiet limit.
  pose proof (config_maxIterations_given set M HM Hpos) as Hcfg.
  assert (Hlimit : Agent.error (Agent.limit_message set) = limit).
  { unfold Agent.limit_message. rewrite Hcfg. reflexivity. }
  unfold Agent.on_input, Agent.try_block. rewrite Hkey. cbv zeta.
  unfold Agent.emit at 1. rewrite Hquiet by reflexivity.
  match goal with |- context [Agent.loop _ _ _ _ _ _ _ _ key 0 ?s] =>
    destruct (loop_hits_limit JSON_stringify String_of inherited callLLM
                toolHandlers set listeners Hllm Hquiet M
                (Agent.config_maxIterations set) key 0 s)
      as [st' [evs [Hrun [Hlen [Hev Hevs]]]]];
    [ lia | lia |
      assert (Hcalls : Agent.modelCalls s = []);
      [destruct (Agent.given (Agent.userMessage inputData));
       [|destruct (Agent.message inputData)]; reflexivity|];
      assert (Hstart : exists start, Agent.emitted s = [start]
                                     /\ Agent.event_name start = "iteration");
      [destruct (Agent.given (Agent.userMessage inputData));
       [|destruct (Agent.message inputData)];
       eexists; split; reflexivity|] ]
  end.
  destruct Hstart as [start [Hstart Hname]].
  rewrite Hrun, Hlimit in *. rewrite Hstart in Hev. clear Hrun.
  assert (Hall : forall st'' tail,
            Agent.modelCalls st'' = Agent.modelCalls st' ->
            Agent.emitted st'' = Agent.emitted st' ++ tail ->
            (forall e, In e tail -> Agent.is_data e = false) ->
            tail = match Agent.thrown listeners limit with
                   | Some thrown => [Agent.error thrown]
                   | None => []
                   end ->
            length (Agent.modelCalls st'') = M
            /\ Agent.emitted st''
               = (start :: evs) ++ limit :: tail
            /\ (forall e, In e (start :: evs) -> Agent.event_name e = "iteration")
            /\ (forall e, In e (Agent.emitted st'') -> Agent.is_data e = false)
            /\ (M = 3 -> In (Agent.error "Max iterations (3) reached")
                            (Agent.emitted st''))).
  { intros st'' tail Hc He Htail _.
    assert (Hemitted : Agent.emitted st'' = (start :: evs) ++ limit :: tail).
    { rewrite He, Hev. simpl. rewrite <- !app_assoc. reflexivity. }
    assert (Hiter : forall e, In e (start :: evs) -> Agent.event_name e = "iteration").
    { intros e [<-|He']; [exact Hname|auto]. }
    split; [rewrite Hc, Hlen, Hcalls; simpl; lia|].
    split; [exact Hemitted|]. split; [exact Hiter|]. split.
    - intros e Hin. rewrite Hemitted in Hin. apply in_app_or in Hin.
      destruct Hin as [Hin|[<-|Hin]];
        [apply iteration_not_data; auto|reflexivity|auto].
    - intros ->. rewrite Hemitted. apply in_or_app. right. left. reflexivity. }
  destruct (Agent.thrown listeners limit) as [c|] eqn:Hthrown.
  - unfold Agent.emit.
    destruct (Agent.thrown listeners (Agent.error c)) as [c'|];
      eexists _, _, (start :: evs);
      (split; [reflexivity|]);
      (destruct (Hall (Agent.logged st' (Agent.error c)) [Agent.error c])
         as [H1 [H2 [H3 [H4 H5]]]];
       [reflexivity|reflexivity|intros e [<-|[]]; reflexivity|reflexivity|]);
      repeat split; assumption.
  - eexists _, _, (start :: evs). split; [reflexivity|].
    destruct (Hall st' []) as [H1 [H2 [H3 [H4 H5]]]];
      [reflexivity|symmetry; apply app_nil_r|intros e []|reflexivity|].
    repeat split; assumption.
Qed.

Lemma C2_witness :
  let stringify := fun _ : Canon.JSValue => Tools.JsonText "{}" in
  let String_of := fun _ : Canon.JSValue => "[object Object]" in
  let reply := Agent.mkLLMResponse
                 [Canon.tool_use "t1" "infinite_tool" (Canon.JSObject [])]
                 [Tools.mkToolCall "t1" "infinite_tool" (Canon.JSObject [])]
                 "tool_use" in
  let callLLM := fun (_ : nat) (_ : string) (_ : list Canon.Message) =>
                   Agent.Replied reply in
  let toolHandlers : gmap string Tools.ToolHandler :=
    <["infinite_tool" := fun _ => Tools.Fulfilled (Canon.JSString "result")]> ∅ in
  let set := Agent.mkAgentConfig None (Some 3) None in
  let listeners : gmap string (list Agent.Subscriber) :=
    <["iteration" := [fun _ : Agent.Emitted => @None string]]>
      (<["error" := [fun _ : Agent.Emitted => @None string]]> ∅) in
  let inputData := Agent.mkInputData (Some "Go") None (Some "test-key") in
  exists st' ending,
    Agent.on_input stringify String_of Tools.inherits_toString callLLM
      toolHandlers set listeners inputData (Agent.initial set)
    = Some (st', ending)
    /\ length (Agent.modelCalls st') = 3
    /\ In (Agent.error "Max iterations (3) reached") (Agent.emitted st').
Proof.
  intros stringify String_of reply callLLM toolHandlers set listeners inputData.
  destruct (C2_iteration_limit stringify String_of Tools.inherits_toString
              callLLM toolHandlers set listeners inputData 3 "test-key")
    as [st' [ending [iterations [Hrun [Hlen [_ [_ [_ Hmsg]]]]]]]].
  - reflexivity.
  - lia.
  - reflexivity.
  - intros n k msgs. exists reply. repeat split. discriminate.
  - intros e He. unfold Agent.thrown. rewrite He. reflexivity.
  - exists st', ending. repeat split; [exact Hrun | exact Hlen | apply Hmsg; reflexivity].
Defined.




Section AdapterFacts.
Import Canon Tools Agent Adapter.

Lemma Role_eqb_eq a b : Role_eqb a b = true <-> a = b.
Proof. destruct a, b; simpl; split; intros H; try reflexivity; discriminate. Qed.

Lemma Role_eqb_neq a b : Role_eqb a b = false <-> a <> b.
Proof.
  destruct a, b; simpl; split; intros H; try reflexivity; try discriminate;
    try (exfalso; apply H; reflexivity).
Qed.

(** The stateful filter splits into the kept messages and the last
    assignment to [systemPrompt]. *)
Lemma extract_system_fold messages : forall systemPrompt kept,
  fold_left (fun '(systemPrompt, kept) m =>
               if Role_eqb (role m) system
               then (Some (system_text m), kept)
               else (systemPrompt, kept ++ [m]))
            messages (systemPrompt, kept)
  = (fold_left last_system messages systemPrompt,
     kept ++ List.filter not_system messages).
Proof.
  induction messages as [|m ms IH]; intros sp kept; simpl.
  - rewrite app_nil_r. reflexivity.
  - assert (Hl : last_system sp m
                 = if Role_eqb (role m) system then Some (system_text m) else sp)
      by reflexivity.
    assert (Hn : not_system m = negb (Role_eqb (role m) system)) by reflexivity.
    rewrite Hl, Hn.
    destruct (Role_eqb (role m) system); rewrite IH; simpl; [reflexivity|].
    rewrite <- app_assoc. reflexivity.
Qed.

Lemma last_system_none messages sp :
  (forall m, In m messages -> role m <> system) ->
  fold_left last_system messages sp = sp.
Proof.
  revert sp. induction messages as [|m ms IH]; intros sp Hno; simpl; [reflexivity|].
  rewrite IH by (intros m' Hm'; apply Hno; right; exact Hm').
  unfold last_system.
  destruct (Role_eqb (role m) system) eqn:E; [|reflexivity].
  apply Role_eqb_eq in E. exfalso. apply (Hno m); [left; reflexivity|exact E].
Qed.

Lemma last_system_last before last after sp :
  role last = system ->
  (forall m, In m after -> role m <> system) ->
  fold_left last_system (before ++ last :: after) sp = Some (system_text last).
Proof.
  intros Hlast Hafter. rewrite fold_left_app. simpl.
  rewrite last_system_none by exact Hafter.
  unfold last_system at 1. rewrite Hlast. reflexivity.
Qed.

Lemma anthropicRequest_parts messages tools :
  req_messages (anthropicRequest messages tools) = List.filter not_system messages
  /\ req_system (anthropicRequest messages tools)
     = given (fold_left last_system messages None).
Proof.
  unfold anthropicRequest, extract_system. rewrite extract_system_fold.
  split; reflexivity.
Qed.

End AdapterFacts.

(** C9 as the spec words it fails: when the last system message has
    empty text the request has no [system] field at all, although an
    earlier system message had text. *)
Lemma C9_counterexample :
  let messages := [Canon.mkMessage Canon.system (Canon.Str "You are terse");
                   Canon.mkMessage Canon.user (Canon.Str "Hi");
                   Canon.mkMessage Canon.system (Canon.Str "")] in
  Adapter.req_system (Adapter.anthropicRequest messages []) = None
  /\ Adapter.req_system (Adapter.anthropicRequest messages []) <> Some "".
Proof. cbv. split; [reflexivity|discriminate]. Qed.

(** C9, amended.  The request's [messages] are the given messages with
    every system-role message removed, wherever it stood, and the others
    kept in order.  The [system] field is the text of the last system-role
    message (its string, or the [text] fields of its blocks joined by
    newlines) when that text is not empty; it is absent when that text is
    empty or when there is no system-role message. *)
Theorem C9_system_messages_removed_last_wins :
  forall (messages : list Canon.Message) (tools : list Adapter.ToolDefinition),
    let req := Adapter.anthropicRequest messages tools in
    Adapter.req_messages req = List.filter Adapter.not_system messages
    /\ (forall m, In m (Adapter.req_messages req) -> Canon.role m <> Canon.system)
    /\ (forall before last after,
          messages = before ++ last :: after ->
          Canon.role last = Canon.system ->
          (forall m, In m after -> Canon.role m <> Canon.system) ->
          Adapter.req_system req
          = if Canon.truthy (Adapter.system_text last)
            then Some (Adapter.system_text last) else None)
    /\ ((forall m, In m messages -> Canon.role m <> Canon.system) ->
          Adapter.req_system req = None).
Proof.
  intros messages tools req. subst req.
  destruct (anthropicRequest_parts messages tools) as [Hmsgs Hsys].
  split; [exact Hmsgs|]. split; [|split].
  - intros m Hin. rewrite Hmsgs in Hin. apply filter_In in Hin.
    destruct Hin as [_ Hm]. unfold Adapter.not_system in Hm.
    apply negb_true_iff in Hm. apply Role_eqb_neq. exact Hm.
  - intros before last after -> Hlast Hafter. rewrite Hsys.
    rewrite last_system_last by assumption. reflexivity.
  - intros Hno. rewrite Hsys. rewrite last_system_none by exact Hno.
    reflexivity.
Qed.

Lemma C9_witness :
  let first := Canon.mkMessage Canon.system (Canon.Str "first") in
  let hello := Canon.mkMessage Canon.user (Canon.Str "Hello") in
  let second := Canon.mkMessage Canon.system (Canon.Str "second") in
  let reply := Canon.mkMessage Canon.assistant (Canon.Str "Hi") in
  Adapter.req_system (Adapter.anthropicRequest [first; hello; second; reply] [])
  = Some "second".
Proof.
  intros first hello second reply.
  apply (proj1 (proj2 (proj2 (C9_system_messages_removed_last_wins
                                [first; hello; second; reply] [])))
           [first; hello] second [reply]).
  - reflexivity.
  - reflexivity.
  - intros m [<-|[]]. discriminate.
Defined.

(** C8 as the spec words it fails: a user message sent through the
    OpenAI conversion and parsed back is stored as an assistant message;
    the same holds on the Anthropic path. *)
Lemma C8_counterexample :
  let stringify := fun _ : Canon.JSValue => "{}" in
  let parse := fun _ : string => Some (Canon.JSObject []) in
  let m := Canon.mkMessage Canon.user (Canon.Str "Hello") in
  (exists r, Adapter.openai_round_trip stringify parse m = Some r
             /\ Canon.role (Adapter.stored_reply r) <> Canon.role m)
  /\ (exists r, Adapter.anthropic_round_trip m = Some r
                /\ Canon.role (Adapter.stored_reply r) <> Canon.role m).
Proof.
  cbv zeta. split; eexists; (split; [reflexivity|]); discriminate.
Qed.

(** C8, amended.  For a plain-text message the outbound conversions carry
    role and text unchanged: OpenAI gets one message with that role and
    that content, Anthropic gets the message itself unless its role is
    system.  Parsing a response that carries the wire message back through
    the inbound conversion gives the original text; the parsed reply has
    no role of its own and is stored as an assistant message. *)
Theorem C8_plain_text_round_trip :
  forall (JSON_stringify : Canon.JSValue -> string)
         (JSON_parse : string -> option Canon.JSValue)
         (r : Canon.Role) (s : string),
    let m := Canon.mkMessage r (Canon.Str s) in
    Adapter.convertToOpenAIMessages JSON_stringify [m]
      = [Adapter.mkOpenAIMessage (Adapter.wire_role r) (Some s) None None]
    /\ (exists reply,
          Adapter.openai_round_trip JSON_stringify JSON_parse m = Some reply
          /\ Adapter.reply_text reply = s
          /\ Canon.role (Adapter.stored_reply reply) = Canon.assistant)
    /\ (r <> Canon.system ->
          Adapter.req_messages (Adapter.anthropicRequest [m] []) = [m]
          /\ exists reply,
               Adapter.anthropic_round_trip m = Some reply
               /\ Adapter.reply_text reply = s
               /\ Canon.role (Adapter.stored_reply reply) = Canon.assistant)
    /\ (r = Canon.system ->
          Adapter.req_messages (Adapter.anthropicRequest [m] []) = []
          /\ Adapter.req_system (Adapter.anthropicRequest [m] [])
             = if Canon.truthy s then Some s else None).
Proof.
  intros JSON_stringify JSON_parse r s m. subst m.
  split; [reflexivity|]. split; [|split; [|intros ->; split; reflexivity]].
  - unfold Adapter.openai_round_trip. simpl.
    unfold Adapter.convertOpenAIResponseToAnthropic. simpl.
    eexists. split; [reflexivity|]. split; [|reflexivity].
    destruct s; reflexivity.
  - intros Hr. assert (E : Canon.Role_eqb r Canon.system = false)
      by (apply Role_eqb_neq; exact Hr).
    assert (Hreq : Adapter.req_messages
                     (Adapter.anthropicRequest [Canon.mkMessage r (Canon.Str s)] [])
                   = [Canon.mkMessage r (Canon.Str s)]).
    { unfold Adapter.anthropicRequest, Adapter.extract_system. simpl.
      rewrite E. reflexivity. }
    split; [exact Hreq|].
    unfold Adapter.anthropic_round_trip. rewrite Hreq.
    eexists. split; [reflexivity|]. split; reflexivity.
Qed.

Lemma C8_witness :
  let stringify := fun _ : Canon.JSValue => "{}" in
  let parse := fun _ : string => Some (Canon.JSObject []) in
  let m := Canon.mkMessage Canon.assistant (Canon.Str "Hi") in
  Adapter.req_messages (Adapter.anthropicRequest [m] []) = [m]
  /\ exists reply,
       Adapter.anthropic_round_trip m = Some reply
       /\ Adapter.reply_text reply = "Hi"
       /\ Canon.role (Adapter.stored_reply reply) = Canon.role m.
Proof.
  intros stringify parse m.
  apply (proj1 (proj2 (proj2 (C8_plain_text_round_trip stringify parse
                                Canon.assistant "Hi")))).
  discriminate.
Defined.

Section CompilerFacts.
Import Canon Compiler.

(** An array-valued entry is first treated as a single edge, and the
    producer it names is [nodes["undefined"]]. *)
Lemma wire_entry_list_throws nodes consumerId key es :
  lookup_node nodes "undefined" = FoundNothing ->
  wire_entry nodes consumerId key (EdgeList es)
  = Throw (TypeError "Cannot read properties of undefined (reading 'pipe')").
Proof.
  intros Hnone. unfold wire_entry, transformEvent. rewrite Hnone. reflexivity.
Qed.

Lemma lookup_node_own nodes key n :
  nodes !! key = Some n -> lookup_node nodes key = FoundNode n.
Proof. unfold lookup_node. intros ->. reflexivity. Qed.

Lemma wire_entry_edge nodes consumerId key e n :
  nodes !! node e = Some n -> has_pipe n = true ->
  wire_entry nodes consumerId key (Edge e)
  = Ok [mkSubscription consumerId key (node e) (Some (out e))].
Proof.
  intros Hsome Hpipe. unfold wire_entry, transformEvent.
  rewrite (lookup_node_own _ _ _ Hsome), Hpipe. reflexivity.
Qed.

End CompilerFacts.

(** C6, on the code.  The workflow of the test suite compiles when the
    [in] entry of the output node is the single edge, with one forwarding
    subscription; with the same edge written as a one-element list,
    [compile] throws a [TypeError] and wires nothing. *)
Theorem C6_list_entry_throws :
  let edge := Compiler.mkNodeInput "input1" "data" in
  let workflow := fun value =>
    [Compiler.mkDescriptor "input" (Some "input1") None None;
     Compiler.mkDescriptor "output" (Some "output1") None (Some [("data", value)])] in
  (exists ctx, Compiler.compile (workflow (Compiler.Edge edge)) = Compiler.Ok ctx
               /\ Compiler.subscriptions ctx
                  = [Compiler.mkSubscription "output1" "data" "input1" (Some "data")])
  /\ Compiler.compile (workflow (Compiler.EdgeList [edge]))
     = Compiler.Throw
         (Compiler.TypeError "Cannot read properties of undefined (reading 'pipe')").
Proof.
  intros edge workflow. split.
  - eexists. split; [vm_compute; reflexivity|]. reflexivity.
  - vm_compute. reflexivity.
Qed.

(** * The test suite's scenarios, evaluated on the embedding *)

Section Scenarios.
Import Canon Tools Agent.

Local Abbreviation stringify := (fun _ : JSValue => JsonText "{}").
Local Abbreviation String_of := (fun _ : JSValue => "[object Object]").
Local Abbreviation nobody := (∅ : gmap string (list Subscriber)).

Example memory_truncates_oldest :
  Memory.addAll (Memory.mkConfig (Some 3) None)
    [mkMessage user (Str "Message 1"); mkMessage assistant (Str "Response 1");
     mkMessage user (Str "Message 2"); mkMessage assistant (Str "Response 2")]
  = [mkMessage assistant (Str "Response 1"); mkMessage user (Str "Message 2");
     mkMessage assistant (Str "Response 2")].
Proof. reflexivity. Qed.

Example memory_truncation_keeps_prompt :
  Memory.addAll (Memory.mkConfig (Some 3) (Some "System message"))
    [mkMessage user (Str "Message 1"); mkMessage assistant (Str "Response 1");
     mkMessage user (Str "Message 2"); mkMessage assistant (Str "Response 2")]
  = [mkMessage system (Str "System message"); mkMessage user (Str "Message 2");
     mkMessage assistant (Str "Response 2")].
Proof. reflexivity. Qed.

(** Scenario A: one model call, then the result. *)
Example scenario_end_turn :
  let callLLM := fun (_ : nat) (_ : string) (_ : list Message) =>
    Replied (mkLLMResponse [text_block "Hi"] [] "end_turn") in
  let set := mkAgentConfig (Some "test-key") None None in
  exists st,
    on_input stringify String_of inherits_toString callLLM ∅ set nobody
      (mkInputData (Some "Hello") None None) (initial set) = Some (st, Returned)
    /\ length (modelCalls st) = 1
    /\ last (emitted st)
       = Some (data "Hi" [text_block "Hi"]
                 [mkMessage user (Str "Hello");
                  mkMessage assistant (Blocks [text_block "Hi"])]
                 1 "end_turn").
Proof. cbv zeta. eexists. split; [vm_compute; reflexivity|]. split; reflexivity. Qed.

(** Scenarios B and D: a tool call whose handler throws is answered with
    an error block, and the second model call ends the run. *)
Example scenario_tool_error :
  let call := mkToolCall "t1" "crash" (JSObject []) in
  let callLLM := fun (n : nat) (_ : string) (_ : list Message) =>
    match n with
    | 0 => Replied (mkLLMResponse [tool_use "t1" "crash" (JSObject [])] [call] "tool_use")
    | _ => Replied (mkLLMResponse [text_block "Sorry"] [] "end_turn")
    end in
  let handlers : gmap string ToolHandler :=
    <["crash" := fun _ => Rejected (ErrorObject "Tool crashed!")]> ∅ in
  let set := mkAgentConfig (Some "test-key") None None in
  exists st,
    on_input stringify String_of inherits_toString callLLM handlers set nobody
      (mkInputData (Some "Go") None None) (initial set) = Some (st, Returned)
    /\ length (modelCalls st) = 2
    /\ messages st
       = [mkMessage user (Str "Go");
          mkMessage assistant (Blocks [tool_use "t1" "crash" (JSObject [])]);
          mkMessage user (Blocks [tool_result "t1" "Error: Tool crashed!" (Some true)]);
          mkMessage assistant (Blocks [text_block "Sorry"])].
Proof. cbv zeta. eexists. split; [vm_compute; reflexivity|]. split; reflexivity. Qed.

End Scenarios.

(** * Further properties of the conversation store *)

Section MemoryWindow.
Import Canon Memory.

Variable set : MemoryConfig.
Variable max : nat.
Hypothesis bounded : maxMessages set = Some max.
Hypothesis positive : 0 < max.

Lemma addMessage_plain messages x :
  head_is_system (messages ++ [x]) = false ->
  length messages <= max ->
  addMessage set messages x
  = drop (length messages + 1 - max) (messages ++ [x]).
Proof.
  intros Hhead Hlen. unfold addMessage. rewrite bounded.
  destruct max as [|k] eqn:Hmax; [lia|].
  rewrite Hhead, length_app. simpl length.
  destruct (Nat.ltb (S k) (length messages + 1)) eqn:E.
  - unfold splice. reflexivity.
  - apply Nat.ltb_ge in E.
    replace (length messages + 1 - S k) with 0 by lia. reflexivity.
Qed.

Lemma addMessage_pinned sys t x :
  role sys = system ->
  length t <= max - 1 ->
  addMessage set (sys :: t) x
  = sys :: drop (length t + 1 - (max - 1)) (t ++ [x]).
Proof.
  intros Hsys Hlen. unfold addMessage. rewrite bounded.
  destruct max as [|k] eqn:Hmax; [lia|].
  simpl head_is_system. rewrite Hsys. simpl Role_eqb.
  simpl length. rewrite length_app. simpl length.
  destruct (Nat.ltb (S k) (S (length t + 1))) eqn:E.
  - apply Nat.ltb_lt in E. unfold splice. simpl.
    replace (length t + 1 - k) with (length t + 1 - (k - 0)) by lia.
    reflexivity.
  - apply Nat.ltb_ge in E.
    replace (length t + 1 - (S k - 1)) with 0 by lia. reflexivity.
Qed.

Lemma head_not_system messages :
  (forall m, In m messages -> role m <> system) ->
  head_is_system messages = false.
Proof.
  destruct messages as [|m ms]; intros Hno; simpl; [reflexivity|].
  apply Role_eqb_neq. apply Hno. left. reflexivity.
Qed.

Lemma window_fold added : forall messages,
  (forall m, In m (messages ++ added) -> role m <> system) ->
  length messages <= max ->
  fold_left (addMessage set) added messages
  = drop (length (messages ++ added) - max) (messages ++ added).
Proof.
  induction added as [|x added IH]; intros messages Hno Hlen; simpl.
  - rewrite app_nil_r. replace (length messages - max) with 0 by lia.
    reflexivity.
  - assert (Hno' : forall m, In m (messages ++ [x]) -> role m <> system).
    { intros m Hm. apply Hno. apply in_app_or in Hm. apply in_or_app.
      destruct Hm as [Hm|[<-|[]]]; [left; exact Hm|right; left; reflexivity]. }
    rewrite addMessage_plain by (auto using head_not_system).
    set (k := length messages + 1 - max).
    assert (Hk : k <= length (messages ++ [x]))
      by (rewrite length_app; simpl; subst k; lia).
    rewrite IH.
    + rewrite <- drop_app_le by exact Hk.
      rewrite <- app_assoc. simpl. rewrite drop_drop. f_equal.
      rewrite length_app, length_drop, !length_app. simpl. subst k. lia.
    + intros m Hm. apply Hno. apply in_app_or in Hm.
      replace (messages ++ x :: added) with ((messages ++ [x]) ++ added)
        by (rewrite <- app_assoc; reflexivity).
      apply in_or_app. destruct Hm as [Hm|Hm]; [left|right; exact Hm].
      apply list_elem_of_In. apply list_elem_of_In in Hm.
      eapply (subseteq_drop k). exact Hm.
    + rewrite length_drop, length_app. simpl. subst k. lia.
Qed.

Lemma pinned_fold sys added : forall t,
  role sys = system ->
  length t <= max - 1 ->
  fold_left (addMessage set) added (sys :: t)
  = sys :: drop (length (t ++ added) - (max - 1)) (t ++ added).
Proof.
  induction added as [|x added IH]; intros t Hsys Hlen; simpl.
  - rewrite app_nil_r. replace (length t - (max - 1)) with 0 by lia.
    reflexivity.
  - rewrite addMessage_pinned by assumption.
    set (k := length t + 1 - (max - 1)).
    assert (Hk : k <= length (t ++ [x]))
      by (rewrite length_app; simpl; subst k; lia).
    rewrite IH.
    + f_equal. rewrite <- drop_app_le by exact Hk.
      rewrite <- app_assoc. simpl. rewrite drop_drop. f_equal.
      rewrite length_app, length_drop, !length_app. simpl. subst k. lia.
    + exact Hsys.
    + rewrite length_drop, length_app. simpl. subst k. lia.
Qed.

End MemoryWindow.

(** X1.  A store with bound [max > 0] and no system prompt, fed
    messages none of which has role [system], holds exactly the last
    [max] of them, in order. *)
Theorem memory_keeps_last_messages :
  forall (set : Memory.MemoryConfig) (max : nat) (added : list Canon.Message),
    Memory.maxMessages set = Some max -> 0 < max ->
    Memory.prompt_given set = None ->
    (forall m, In m added -> Canon.role m <> Canon.system) ->
    Memory.getMessages (Memory.addAll set added)
    = drop (length added - max) added.
Proof.
  intros set max added Hmax Hpos Hprompt Hno.
  unfold Memory.getMessages, Memory.addAll, Memory.init. rewrite Hprompt.
  rewrite (window_fold set max Hmax Hpos added []); simpl; auto; lia.
Qed.

Lemma memory_keeps_last_messages_witness :
  let set := Memory.mkConfig (Some 2) None in
  let a := Canon.mkMessage Canon.user (Canon.Str "a") in
  let b := Canon.mkMessage Canon.assistant (Canon.Str "b") in
  let c := Canon.mkMessage Canon.user (Canon.Str "c") in
  Memory.getMessages (Memory.addAll set [a; b; c]) = [b; c].
Proof.
  intros set a b c.
  apply (memory_keeps_last_messages set 2 [a; b; c]);
    [reflexivity | lia | reflexivity |].
  intros m [<-|[<-|[<-|[]]]]; discriminate.
Defined.

(** X2.  A store with bound [max > 0] and a system prompt holds the
    system message followed by the last [max - 1] appended messages,
    whatever their roles; with [max = 1] no appended message is kept. *)
Theorem memory_pins_prompt_and_keeps_last :
  forall (set : Memory.MemoryConfig) (max : nat) (s : string)
         (added : list Canon.Message),
    Memory.maxMessages set = Some max -> 0 < max ->
    Memory.prompt_given set = Some s ->
    Memory.getMessages (Memory.addAll set added)
    = Canon.mkMessage Canon.system (Canon.Str s)
      :: drop (length added - (max - 1)) added
    /\ (max = 1 -> Memory.getMessages (Memory.addAll set added)
                   = [Canon.mkMessage Canon.system (Canon.Str s)]).
Proof.
  intros set max s added Hmax Hpos Hprompt.
  assert (H : Memory.getMessages (Memory.addAll set added)
              = Canon.mkMessage Canon.system (Canon.Str s)
                :: drop (length added - (max - 1)) added).
  { unfold Memory.getMessages, Memory.addAll, Memory.init. rewrite Hprompt.
    rewrite (pinned_fold set max Hmax Hpos _ added []); simpl;
      [reflexivity | reflexivity | lia]. }
  split; [exact H|].
  intros ->. rewrite H. simpl. rewrite Nat.sub_0_r.
  rewrite drop_all. reflexivity.
Qed.

Lemma memory_pins_prompt_and_keeps_last_witness :
  let set := Memory.mkConfig (Some 1) (Some "sys") in
  let a := Canon.mkMessage Canon.user (Canon.Str "a") in
  Memory.getMessages (Memory.addAll set [a; a])
  = [Canon.mkMessage Canon.system (Canon.Str "sys")].
Proof.
  intros set a.
  apply (proj2 (memory_pins_prompt_and_keeps_last set 1 "sys" [a; a]
                  eq_refl (Nat.lt_0_succ 0) eq_refl)).
  reflexivity.
Defined.

(** X3.  Without a bound, or with the bound 0, nothing is ever dropped:
    the store is its initial content followed by every appended message. *)
Theorem memory_unbounded_keeps_all :
  forall (set : Memory.MemoryConfig) (added : list Canon.Message),
    Memory.maxMessages set = None \/ Memory.maxMessages set = Some 0 ->
    Memory.getMessages (Memory.addAll set added) = Memory.init set ++ added.
Proof.
  intros set added Hmax. unfold Memory.getMessages, Memory.addAll.
  generalize (Memory.init set). induction added as [|x added IH]; intros l; simpl.
  - rewrite app_nil_r. reflexivity.
  - rewrite IH. unfold Memory.addMessage.
    destruct Hmax as [-> | ->]; rewrite <- app_assoc; reflexivity.
Qed.

Lemma memory_unbounded_keeps_all_witness :
  let set := Memory.mkConfig (Some 0) None in
  let a := Canon.mkMessage Canon.user (Canon.Str "a") in
  Memory.getMessages (Memory.addAll set [a; a; a]) = [a; a; a].
Proof.
  intros set a.
  apply (memory_unbounded_keeps_all set [a; a; a]). right. reflexivity.
Defined.

(** X4.  [clear] resets the store: when a system prompt is configured,
    or when the first stored message is not a system message, everything
    that follows a [clear] behaves as on a newly constructed store. *)
Theorem memory_clear_resets :
  forall (set : Memory.MemoryConfig) (before after : list Memory.Op),
    (exists s, Memory.prompt_given set = Some s)
    \/ Memory.head_is_system (Memory.run set before) = false ->
    Memory.run set (before ++ Memory.Clear :: after) = Memory.run set after.
Proof.
  intros set before after Hcase. unfold Memory.run at 1.
  rewrite fold_left_app. simpl. fold (Memory.run set before).
  assert (Hclear : Memory.clear (Memory.run set before) = Memory.init set).
  { destruct (run_ok set before) as [_ Hhead].
    unfold Memory.init.
    destruct (Memory.prompt_given set) as [s|] eqn:Hprompt.
    - destruct (Hhead s eq_refl) as [rest ->]. reflexivity.
    - destruct Hcase as [[s Hs]|Hno]; [discriminate|].
      destruct (Memory.run set before) as [|m rest]; [reflexivity|].
      simpl in *. rewrite Hno. reflexivity. }
  rewrite Hclear. reflexivity.
Qed.

Lemma memory_clear_resets_witness :
  let set := Memory.mkConfig (Some 2) (Some "sys") in
  let a := Canon.mkMessage Canon.user (Canon.Str "a") in
  Memory.run set ([Memory.Add a; Memory.Add a] ++ Memory.Clear :: [Memory.Add a])
  = Memory.run set [Memory.Add a].
Proof.
  intros set a.
  apply (memory_clear_resets set [Memory.Add a; Memory.Add a] [Memory.Add a]).
  left. exists "sys". reflexivity.
Defined.

(** * Further properties of the two emitters *)

Section EmitterFacts.
Import Canon Events.

Lemma forEach_plain_quiet hs event data :
  (forall h, In h hs -> body h data = None) ->
  forEach_plain hs event data
  = (map (fun h => Invoke event (hid h) data) hs, Normal).
Proof.
  induction hs as [|h hs IH]; intros Hq; simpl; [reflexivity|].
  rewrite (Hq h) by (left; reflexivity).
  rewrite IH by (intros h' Hh'; apply Hq; right; exact Hh'). reflexivity.
Qed.

Lemma forEach_plain_stops quiet h rest e event data :
  (forall h', In h' quiet -> body h' data = None) ->
  body h data = Some e ->
  forEach_plain (quiet ++ h :: rest) event data
  = (map (fun h => Invoke event (hid h) data) (quiet ++ [h]), Throws e).
Proof.
  intros Hq Hthrow. induction quiet as [|q quiet IH]; simpl.
  - rewrite Hthrow. reflexivity.
  - rewrite (Hq q) by (left; reflexivity).
    rewrite IH by (intros h' Hh'; apply Hq; right; exact Hh'). reflexivity.
Qed.

Lemma forEach_try_quiet hs event data on_throw :
  (forall e, on_throw e = []) ->
  forEach_try hs event data on_throw
  = map (fun h => Invoke event (hid h) data) hs.
Proof.
  intros Hq. unfold forEach_try.
  induction hs as [|h hs IH]; simpl; [reflexivity|].
  rewrite IH. destruct (body h data); [rewrite Hq|]; reflexivity.
Qed.

Lemma forEach_try_no_throw hs event data on_throw :
  (forall h, In h hs -> body h data = None) ->
  forEach_try hs event data on_throw
  = map (fun h => Invoke event (hid h) data) hs.
Proof.
  intros Hq. unfold forEach_try.
  induction hs as [|h hs IH]; simpl; [reflexivity|].
  rewrite (Hq h) by (left; reflexivity).
  rewrite IH by (intros h' Hh'; apply Hq; right; exact Hh'). reflexivity.
Qed.

End EmitterFacts.

(** X5.  In the emitter of the memory node (and of the other nodes that
    carry the same [emit]) the handlers run in registration order up to
    and including the first one that throws; the later ones are not
    called and the exception leaves [emit]. *)
Theorem node_emit_stops_at_first_throw :
  forall (listeners : gmap string (list Events.Handler)) (event : string)
         (data : Events.Data) (quiet rest : list Events.Handler)
         (h : Events.Handler) (e : Events.Data),
    listeners !! event = Some (quiet ++ h :: rest) ->
    (forall h', In h' quiet -> Events.body h' data = None) ->
    Events.body h data = Some e ->
    Events.node_emit listeners event data
    = (map (fun h => Events.Invoke event (Events.hid h) data) (quiet ++ [h]),
       Events.Throws e).
Proof.
  intros listeners event data quiet rest h e Hls Hq Hthrow.
  unfold Events.node_emit. rewrite Hls.
  apply forEach_plain_stops; assumption.
Qed.

Lemma node_emit_stops_at_first_throw_witness :
  let ok := Events.mkHandler 1 (fun _ => None) in
  let bad := Events.mkHandler 2 (fun _ => Some (Canon.JSString "boom")) in
  let late := Events.mkHandler 3 (fun _ => None) in
  let listeners : gmap string (list Events.Handler) :=
    <["data" := [ok; bad; late]]> ∅ in
  Events.node_emit listeners "data" Canon.JSNull
  = ([Events.Invoke "data" 1 Canon.JSNull; Events.Invoke "data" 2 Canon.JSNull],
     Events.Throws (Canon.JSString "boom")).
Proof.
  intros ok bad late listeners.
  apply (node_emit_stops_at_first_throw listeners "data" Canon.JSNull
           [ok] [late] bad (Canon.JSString "boom")).
  - reflexivity.
  - intros h' [<-|[]]. reflexivity.
  - reflexivity.
Defined.





(** * Further properties of tool dispatch *)

(** X8.  Registration and dispatch.  After [unregisterTool(name)] a call
    to [name] is handled as if the table were empty: it gets the
    not-found error and invokes nothing, unless [name] is a member every
    object inherits, which is then what gets invoked.  After
    [registerTool(name, h)] a call to [name] is answered by [h], whatever
    was registered before and whatever is inherited; calls to other names
    are not affected by either.  The name [__proto__] is set aside:
    assigning to it replaces the table's prototype instead of storing a
    key. *)
Theorem registry_governs_dispatch :
  forall (JSON_stringify : Canon.JSValue -> Tools.Serialized)
         (String_of : Canon.JSValue -> string)
         (inherited : string -> option Tools.ToolHandler)
         (tools : gmap string Tools.ToolHandler) (name : string)
         (h : Tools.ToolHandler) (toolCall : Tools.ToolCall),
    name <> "__proto__" ->
    let run := Tools.runToolCall JSON_stringify String_of inherited in
    (Tools.tc_name toolCall = name ->
       run (Registry.unregisterTool tools name) toolCall = run ∅ toolCall
       /\ (inherited name = None ->
           run (Registry.unregisterTool tools name) toolCall
           = (Tools.mkToolResult (Tools.tc_id toolCall)
                ("Error: Tool " +:+ Tools.dquote +:+ name +:+ Tools.dquote
                 +:+ " not found")
                (Some true), []))
       /\ (forall inherited',
             Tools.runToolCall JSON_stringify String_of inherited'
               (Registry.registerTool tools name h) toolCall
             = run (Registry.registerTool ∅ name h) toolCall)
       /\ snd (run (Registry.registerTool tools name h) toolCall)
          = [(name, Tools.tc_input toolCall)])
    /\ (Tools.tc_name toolCall <> name ->
          run (Registry.unregisterTool tools name) toolCall = run tools toolCall
          /\ run (Registry.registerTool tools name h) toolCall = run tools toolCall).
Proof.
  intros JSON_stringify String_of inherited tools name h toolCall _ run. subst run.
  unfold Registry.unregisterTool, Registry.registerTool, Tools.runToolCall,
    Tools.lookup_handler.
  split.
  - intros <-. rewrite lookup_delete_eq, !lookup_insert_eq, lookup_empty.
    split; [reflexivity|]. split; [intros ->; reflexivity|].
    split; [reflexivity|]. reflexivity.
  - intros Hne. rewrite lookup_delete_ne, lookup_insert_ne by congruence.
    split; reflexivity.
Qed.

Lemma registry_governs_dispatch_witness :
  let stringify := fun _ : Canon.JSValue => Tools.JsonText "{}" in
  let String_of := fun _ : Canon.JSValue => "[object Object]" in
  let old := fun _ : Canon.JSValue => Tools.Fulfilled (Canon.JSString "old") in
  let tools : gmap string Tools.ToolHandler := <["calc" := old]> ∅ in
  let toolCall := Tools.mkToolCall "t1" "calc" Canon.JSNull in
  Tools.runToolCall stringify String_of Tools.inherits_toString
    (Registry.unregisterTool tools "calc") toolCall
  = (Tools.mkToolResult "t1"
       ("Error: Tool " +:+ Tools.dquote +:+ "calc" +:+ Tools.dquote +:+ " not found")
       (Some true), []).
Proof.
  intros stringify String_of old tools toolCall.
  assert (Hname : "calc" <> "__proto__") by discriminate.
  apply (proj1 (proj2 (proj1 (registry_governs_dispatch stringify String_of
                                Tools.inherits_toString tools "calc" old toolCall
                                Hname)
                         eq_refl))).
  reflexivity.
Defined.

(** X9.  A batch with a handler that never settles never completes: the
    router publishes nothing and [executeTools] delivers nothing, also
    for the calls of the batch that did settle. *)
Theorem pending_handler_blocks_batch :
  forall (JSON_stringify : Canon.JSValue -> Tools.Serialized)
         (String_of : Canon.JSValue -> string)
         (inherited : string -> option Tools.ToolHandler)
         (tools : gmap string Tools.ToolHandler)
         (toolCalls : list Tools.ToolCall) (order : list nat) (k : nat),
    k < length toolCalls -> ~ In k order ->
    Tools.executeTools JSON_stringify String_of inherited tools toolCalls order
    = None
    /\ Tools.toolRouter JSON_stringify String_of inherited tools (Some toolCalls)
         order
       = None.
Proof.
  intros JSON_stringify String_of inherited tools toolCalls order k Hk Hnot.
  assert (Hall : Tools.Promise_all
                   (map (fun toolCall =>
                           fst (Tools.runToolCall JSON_stringify String_of
                                  inherited tools toolCall))
                        toolCalls) order = None).
  { apply (Promise_all_pending _ order k); [rewrite length_map; exact Hk|exact Hnot]. }
  split; [exact Hall|].
  unfold Tools.toolRouter. simpl default.
  destruct toolCalls as [|tc rest]; [simpl in Hk; lia|].
  simpl length. simpl Nat.eqb. cbv iota. rewrite Hall. reflexivity.
Qed.

Lemma pending_handler_blocks_batch_witness :
  let stringify := fun _ : Canon.JSValue => Tools.JsonText "{}" in
  let String_of := fun _ : Canon.JSValue => "[object Object]" in
  let toolCalls := [Tools.mkToolCall "t1" "a" Canon.JSNull;
                    Tools.mkToolCall "t2" "b" Canon.JSNull] in
  Tools.executeTools stringify String_of Tools.inherits_toString ∅ toolCalls [0]
  = None
  /\ Tools.toolRouter stringify String_of Tools.inherits_toString ∅
       (Some toolCalls) [0]
     = None.
Proof.
  intros stringify String_of toolCalls.
  apply (pending_handler_blocks_batch stringify String_of Tools.inherits_toString
           ∅ toolCalls [0] 1).
  - simpl. lia.
  - intros [H|[]]. discriminate H.
Defined.

(** X10.  What the router publishes.  For an empty or missing list it
    publishes no results, [hasToolCalls = false] and no content blocks,
    whatever is registered.  For a batch that completes it publishes
    [hasToolCalls = true] and one [tool_result] block per call, in call
    order, carrying the call's id and the content and error flag of the
    call's result. *)
Theorem router_publication :
  forall (JSON_stringify : Canon.JSValue -> Tools.Serialized)
         (String_of : Canon.JSValue -> string)
         (inherited : string -> option Tools.ToolHandler)
         (tools : gmap string Tools.ToolHandler)
         (toolCalls : list Tools.ToolCall) (order : list nat),
    Tools.toolRouter JSON_stringify String_of inherited tools None order
      = Some (Tools.mkRouterData [] None false)
    /\ Tools.toolRouter JSON_stringify String_of inherited tools (Some []) order
       = Some (Tools.mkRouterData [] None false)
    /\ (toolCalls <> [] ->
        Tools.all_settle (length toolCalls) order = true ->
        exists d,
          Tools.toolRouter JSON_stringify String_of inherited tools
            (Some toolCalls) order
            = Some d
          /\ Tools.hasToolCalls d = true
          /\ Tools.contentBlocks d
             = Some (map (fun toolCall =>
                            let r := fst (Tools.runToolCall JSON_stringify
                                            String_of inherited tools toolCall) in
                            Canon.tool_result (Tools.tc_id toolCall)
                              (Tools.result_content r) (Tools.is_error r))
                         toolCalls)).
Proof.
  intros JSON_stringify String_of inherited tools toolCalls order.
  split; [reflexivity|]. split; [reflexivity|].
  intros Hne Hall. unfold Tools.toolRouter. simpl default.
  destruct toolCalls as [|tc rest] eqn:Hcalls; [congruence|].
  rewrite <- Hcalls in *.
  replace (Nat.eqb (length toolCalls) 0) with false
    by (subst toolCalls; reflexivity).
  pose proof (executeTools_complete JSON_stringify String_of inherited tools
                toolCalls order Hall) as Hexec.
  unfold Tools.executeTools in Hexec. rewrite Hexec.
  eexists. split; [reflexivity|]. split; [reflexivity|].
  simpl Tools.contentBlocks. f_equal. unfold Tools.awaited_results.
  rewrite map_map. apply map_ext. intros toolCall.
  rewrite runToolCall_id. reflexivity.
Qed.

Lemma router_publication_witness :
  let stringify := fun _ : Canon.JSValue => Tools.JsonText "{}" in
  let String_of := fun _ : Canon.JSValue => "[object Object]" in
  let tools : gmap string Tools.ToolHandler :=
    <["echo" := fun v => Tools.Fulfilled (Canon.JSString "pong")]> ∅ in
  let toolCalls := [Tools.mkToolCall "t1" "echo" Canon.JSNull;
                    Tools.mkToolCall "t2" "nope" Canon.JSNull] in
  exists d,
    Tools.toolRouter stringify String_of Tools.inherits_toString tools
      (Some toolCalls) [1; 0] = Some d
    /\ Tools.hasToolCalls d = true
    /\ Tools.contentBlocks d
       = Some (map (fun toolCall =>
                      let r := fst (Tools.runToolCall stringify String_of
                                      Tools.inherits_toString tools toolCall) in
                      Canon.tool_result (Tools.tc_id toolCall)
                        (Tools.result_content r) (Tools.is_error r))
                   toolCalls).
Proof.
  intros stringify String_of tools toolCalls.
  apply (proj2 (proj2 (router_publication stringify String_of
                         Tools.inherits_toString tools toolCalls [1; 0]))).
  - discriminate.
  - reflexivity.
Defined.

(** * Further properties of the agent loop *)

Section InputShape.
Import Canon Tools Agent AgentTrace.
Variable JSON_stringify : JSValue -> Serialized.
Variable String_of : JSValue -> string.
Variable inherited : string -> option ToolHandler.
Variable callLLM : nat -> string -> list Message -> CallResult.
Variable toolHandlers : gmap string ToolHandler.
Variable set : AgentConfig.
Variable listeners : gmap string (list Subscriber).

Local Abbreviation handle :=
  (on_input JSON_stringify String_of inherited callLLM toolHandlers set listeners).
Local Abbreviation body :=
  (try_block JSON_stringify String_of inherited callLLM toolHandlers set listeners).
Local Abbreviation thrown := (Agent.thrown listeners).

(** What the [try] block adds to the state. *)
Lemma try_block_shape inputData st :
  exists st' t, body inputData st = Some (st', t)
  /\ (exists ms, messages st' = messages st ++ ms)
  /\ (exists evs fin,
        emitted st' = emitted st ++ evs ++ fin
        /\ Forall (fun e => is_final e = false) evs
        /\ ((exists final, fin = [final] /\ is_final final = true
                           /\ thrown final = t)
            \/ (fin = [] /\ exists caught, t = Some caught)))
  /\ (exists calls,
        modelCalls st' = modelCalls st ++ calls
        /\ length calls <= config_maxIterations set).
Proof.
  unfold try_block.
  destruct (or_else (in_apiKey inputData) (given (apiKey set))) as [key|].
  2:{ eexists _, _. split; [reflexivity|]. simpl.
      split; [exists []; rewrite app_nil_r; reflexivity|].
      split; [eexists [], [_]; split; [reflexivity|];
              split; [constructor|left; eexists; repeat split]|].
      exists []. rewrite app_nil_r. split; [reflexivity|simpl; lia]. }
  cbv zeta.
  match goal with |- context [Agent.emit listeners ?s _] =>
    assert (Hs : exists pre, messages s = messages st ++ pre
                             /\ emitted s = emitted st
                             /\ modelCalls s = modelCalls st);
    [|set (s1 := s) in *]
  end.
  { destruct (given (userMessage inputData)); [|destruct (message inputData)];
      simpl; eexists; (split; [try reflexivity; symmetry; apply app_nil_r|]);
      split; reflexivity. }
  destruct Hs as [pre [Hpre [Hsame Hcalls0]]].
  set (start := iteration_start (messages s1)) in *.
  assert (Hstart : is_final start = false) by reflexivity.
  unfold Agent.emit. destruct (Agent.thrown listeners start) as [c|].
  - eexists _, _. split; [reflexivity|]. simpl.
    split; [exists pre; exact Hpre|].
    split; [exists [start], []; split; [rewrite Hsame, app_nil_r; reflexivity|];
            split; [repeat constructor; exact Hstart|right; split; eauto]|].
    exists []. rewrite app_nil_r. split; [exact Hcalls0|simpl; lia].
  - destruct (loop_shape JSON_stringify String_of inherited callLLM toolHandlers
                set listeners (config_maxIterations set) key 0 (logged s1 start))
      as [st' [t [Hrun [[ms Hms] [[evs [fin [Hev [Hevs Hfin]]]]
                                  [calls [Hcalls [Hlen _]]]]]]]]; [lia|].
    exists st', t. split; [exact Hrun|]. simpl in *.
    split; [exists (pre ++ ms); rewrite Hms, Hpre, <- app_assoc; reflexivity|].
    split.
    + exists (start :: evs), fin.
      split; [rewrite Hev, Hsame, <- !app_assoc; reflexivity|].
      split; [constructor; [exact Hstart|exact Hevs]|exact Hfin].
    + exists calls. split; [rewrite Hcalls, Hcalls0; reflexivity|lia].
Qed.

(** The [catch] block publishes what left the [try] block. *)
Lemma on_input_catch inputData st st1 t :
  body inputData st = Some (st1, t) ->
  exists ending,
    handle inputData st
    = Some (match t with
            | Some caught => logged st1 (error caught)
            | None => st1
            end, ending)
    /\ (t = None -> ending = Returned).
Proof.
  intros Hbody. unfold on_input. rewrite Hbody. destruct t as [c|].
  - unfold Agent.emit. destruct (Agent.thrown listeners (error c));
      eexists; (split; [reflexivity|discriminate]).
  - eexists. split; reflexivity.
Qed.

(** What handling an input adds to the state. *)
Lemma on_input_shape inputData st :
  exists st' ending, handle inputData st = Some (st', ending)
  /\ (exists ms, messages st' = messages st ++ ms)
  /\ (exists evs final tail,
        emitted st' = emitted st ++ evs ++ final :: tail
        /\ is_final final = true
        /\ Forall (fun e => is_final e = false) evs
        /\ (tail = [] \/ exists t, thrown final = Some t /\ tail = [error t]))
  /\ (exists calls,
        modelCalls st' = modelCalls st ++ calls
        /\ length calls <= config_maxIterations set).
Proof.
  destruct (try_block_shape inputData st)
    as [st1 [t [Hbody [[ms Hms] [[evs [fin [Hev [Hevs Hfin]]]]
                                 [calls [Hcalls Hlen]]]]]]].
  destruct (on_input_catch inputData st st1 t Hbody) as [ending [Hrun _]].
  eexists _, ending. split; [exact Hrun|].
  split; [exists ms; destruct t; exact Hms|].
  split; [|exists calls; destruct t; split; assumption].
  destruct Hfin as [[final [-> [Hfinal Hthrown]]] | [-> [c ->]]].
  - exists evs, final. destruct t as [c|].
    + exists [error c]. simpl. rewrite Hev, <- !app_assoc.
      split; [reflexivity|]. split; [exact Hfinal|]. split; [exact Hevs|].
      right. exists c. split; [exact Hthrown|reflexivity].
    + exists []. split; [exact Hev|]. split; [exact Hfinal|].
      split; [exact Hevs|left; reflexivity].
  - exists evs, (error c), []. simpl. rewrite Hev, app_nil_r, <- app_assoc.
    split; [reflexivity|]. split; [reflexivity|]. split; [exact Hevs|].
    left. reflexivity.
Qed.

End InputShape.

(** X11.  Whatever the model answers, whatever the tools do and whatever
    the subscribers do, handling an input ends, and it makes at most
    [maxIterations] model calls (10 when the setting is absent or 0). *)
Theorem agent_input_bounded_calls :
  forall (JSON_stringify : Canon.JSValue -> Tools.Serialized)
         (String_of : Canon.JSValue -> string)
         (inherited : string -> option Tools.ToolHandler)
         (callLLM : nat -> string -> list Canon.Message -> Agent.CallResult)
         (toolHandlers : gmap string Tools.ToolHandler)
         (set : Agent.AgentConfig)
         (listeners : gmap string (list Agent.Subscriber))
         (inputData : Agent.InputData) (st : Agent.AgentState),
    exists st' ending calls,
      Agent.on_input JSON_stringify String_of inherited callLLM toolHandlers set
        listeners inputData st = Some (st', ending)
      /\ Agent.modelCalls st' = Agent.modelCalls st ++ calls
      /\ length calls <= Agent.config_maxIterations set
      /\ (forall n, Agent.maxIterations set = Some (S n) ->
            Agent.config_maxIterations set = S n)
      /\ (Agent.maxIterations set = None \/ Agent.maxIterations set = Some 0 ->
            Agent.config_maxIterations set = 10).
Proof.
  intros JSON_stringify String_of inherited callLLM toolHandlers set listeners
         inputData st.
  destruct (on_input_shape JSON_stringify String_of inherited callLLM toolHandlers
              set listeners inputData st)
    as [st' [ending [Hrun [_ [_ [calls [Hcalls Hlen]]]]]]].
  exists st', ending, calls. repeat split; auto.
  - intros n Hn. unfold Agent.config_maxIterations. rewrite Hn. reflexivity.
  - intros [H|H]; unfold Agent.config_maxIterations; rewrite H; reflexivity.
Qed.

(** X12.  Handling an input publishes iteration events and then one
    final event, [data] or [error].  Nothing follows the final event
    unless one of its subscribers throws: then the [catch] block
    publishes one more event, the [error] carrying what was thrown.  So
    when no subscriber throws exactly one final event is published, and
    it is the last. *)
Theorem agent_input_one_final_event :
  forall (JSON_stringify : Canon.JSValue -> Tools.Serialized)
         (String_of : Canon.JSValue -> string)
         (inherited : string -> option Tools.ToolHandler)
         (callLLM : nat -> string -> list Canon.Message -> Agent.CallResult)
         (toolHandlers : gmap string Tools.ToolHandler)
         (set : Agent.AgentConfig)
         (listeners : gmap string (list Agent.Subscriber))
         (inputData : Agent.InputData) (st : Agent.AgentState),
    exists st' ending evs final tail,
      Agent.on_input JSON_stringify String_of inherited callLLM toolHandlers set
        listeners inputData st = Some (st', ending)
      /\ Agent.emitted st' = Agent.emitted st ++ evs ++ final :: tail
      /\ AgentTrace.is_final final = true
      /\ Forall (fun e => AgentTrace.is_final e = false) evs
      /\ (tail = []
          \/ exists t, Agent.thrown listeners final = Some t
                       /\ tail = [Agent.error t])
      /\ (Agent.thrown listeners final = None -> tail = []).
Proof.
  intros JSON_stringify String_of inherited callLLM toolHandlers set listeners
         inputData st.
  destruct (on_input_shape JSON_stringify String_of inherited callLLM toolHandlers
              set listeners inputData st)
    as [st' [ending [Hrun [_ [[evs [final [tail [Hev [Hfin [Hevs Htail]]]]]] _]]]]].
  exists st', ending, evs, final, tail. repeat split; auto.
  intros Hquiet. destruct Htail as [->|[t [Ht _]]]; [reflexivity|congruence].
Qed.

(** X13.  Handling an input only appends to the conversation: the
    messages held before are kept, in order, also when the run ends in an
    error. *)
Theorem agent_input_appends_only :
  forall (JSON_stringify : Canon.JSValue -> Tools.Serialized)
         (String_of : Canon.JSValue -> string)
         (inherited : string -> option Tools.ToolHandler)
         (callLLM : nat -> string -> list Canon.Message -> Agent.CallResult)
         (toolHandlers : gmap string Tools.ToolHandler)
         (set : Agent.AgentConfig)
         (listeners : gmap string (list Agent.Subscriber))
         (inputData : Agent.InputData) (st : Agent.AgentState),
    exists st' ending ms,
      Agent.on_input JSON_stringify String_of inherited callLLM toolHandlers set
        listeners inputData st = Some (st', ending)
      /\ Agent.messages st' = Agent.messages st ++ ms.
Proof.
  intros JSON_stringify String_of inherited callLLM toolHandlers set listeners
         inputData st.
  destruct (on_input_shape JSON_stringify String_of inherited callLLM toolHandlers
              set listeners inputData st) as [st' [ending [Hrun [[ms Hms] _]]]].
  exists st', ending, ms. auto.
Qed.

(** X14.  Without an API key (none or an empty one in the input, none or
    an empty one in the configuration) the input is answered by the error
    "API key is required for agent loop": the user message is not stored,
    no model call is made and no iteration event is published.  That
    error is the only event, unless one of its subscribers throws: then
    the [catch] block publishes what was thrown as a second error. *)
Theorem agent_missing_key :
  forall (JSON_stringify : Canon.JSValue -> Tools.Serialized)
         (String_of : Canon.JSValue -> string)
         (inherited : string -> option Tools.ToolHandler)
         (callLLM : nat -> string -> list Canon.Message -> Agent.CallResult)
         (toolHandlers : gmap string Tools.ToolHandler)
         (set : Agent.AgentConfig)
         (listeners : gmap string (list Agent.Subscriber))
         (inputData : Agent.InputData) (st : Agent.AgentState),
    Agent.in_apiKey inputData = None \/ Agent.in_apiKey inputData = Some "" ->
    Agent.apiKey set = None \/ Agent.apiKey set = Some "" ->
    let required := Agent.error "API key is required for agent loop" in
    exists st' ending,
      Agent.on_input JSON_stringify String_of inherited callLLM toolHandlers set
        listeners inputData st = Some (st', ending)
      /\ Agent.messages st' = Agent.messages st
      /\ Agent.modelCalls st' = Agent.modelCalls st
      /\ Agent.emitted st'
         = Agent.emitted st ++ required ::
           match Agent.thrown listeners required with
           | Some t => [Agent.error t]
           | None => []
           end
      /\ (Agent.thrown listeners required = None -> ending = Agent.Returned).
Proof.
  intros JSON_stringify String_of inherited callLLM toolHandlers set listeners
         inputData st Hin Hcfg required.
  assert (Hkey : Agent.or_else (Agent.in_apiKey inputData)
                   (Agent.given (Agent.apiKey set)) = None).
  { unfold Agent.or_else.
    destruct Hin as [-> | ->]; destruct Hcfg as [-> | ->]; reflexivity. }
  unfold Agent.on_input, Agent.try_block. rewrite Hkey.
  unfold Agent.emit. fold required.
  destruct (Agent.thrown listeners required) as [c|].
  - destruct (Agent.thrown listeners (Agent.error c)); eexists _, _;
      (split; [reflexivity|]); simpl; rewrite <- app_assoc;
      repeat split; discriminate.
  - eexists _, _. split; [reflexivity|]. repeat split.
Qed.

Lemma agent_missing_key_witness :
  let stringify := fun _ : Canon.JSValue => Tools.JsonText "{}" in
  let String_of := fun _ : Canon.JSValue => "[object Object]" in
  let callLLM := fun (_ : nat) (_ : string) (_ : list Canon.Message) =>
                   Agent.CallThrew "unreachable" in
  let set := Agent.mkAgentConfig (Some "") None None in
  let listeners : gmap string (list Agent.Subscriber) :=
    <["error" := [fun _ : Agent.Emitted => Some "observer failed"]]> ∅ in
  let inputData := Agent.mkInputData (Some "Hello") None None in
  exists st' ending,
    Agent.on_input stringify String_of Tools.inherits_toString callLLM ∅ set
      listeners inputData (Agent.initial set)
      = Some (st', ending)
    /\ Agent.messages st' = []
    /\ Agent.modelCalls st' = []
    /\ Agent.emitted st'
       = [Agent.error "API key is required for agent loop";
          Agent.error "observer failed"].
Proof.
  intros stringify String_of callLLM set listeners inputData.
  destruct (agent_missing_key stringify String_of Tools.inherits_toString callLLM
              ∅ set listeners inputData (Agent.initial set))
    as [st' [ending [Hrun [Hm [Hc [He _]]]]]]; [left; reflexivity|right; reflexivity|].
  exists st', ending. repeat split; assumption.
Defined.

(** X15.  A first reply whose stop reason is not [tool_use], or that
    lists no tool call, ends the run after that one model call, when no
    subscriber of the iteration events throws: the reply is stored as an
    assistant message, no tool is run even if the reply carries tool
    calls, and the [data] event reports the joined text, one iteration
    and the reply's stop reason.  Only the error a subscriber of that
    [data] event throws can follow it. *)
Theorem agent_stops_without_tool_request :
  forall (JSON_stringify : Canon.JSValue -> Tools.Serialized)
         (String_of : Canon.JSValue -> string)
         (inherited : string -> option Tools.ToolHandler)
         (callLLM : nat -> string -> list Canon.Message -> Agent.CallResult)
         (toolHandlers : gmap string Tools.ToolHandler)
         (set : Agent.AgentConfig)
         (listeners : gmap string (list Agent.Subscriber))
         (inputData : Agent.InputData)
         (st : Agent.AgentState) (key u : string) (r : Agent.LLMResponse),
    Agent.or_else (Agent.in_apiKey inputData) (Agent.given (Agent.apiKey set))
      = Some key ->
    Agent.given (Agent.userMessage inputData) = Some u ->
    let msgs := Agent.messages st ++ [Canon.mkMessage Canon.user (Canon.Str u)] in
    let reply := Canon.mkMessage Canon.assistant (Canon.Blocks (Agent.resp_content r)) in
    let result := Agent.data (Canon.join Canon.newline
                                (Canon.texts (Agent.resp_content r)))
                    (Agent.resp_content r) (msgs ++ [reply]) 1
                    (Agent.resp_stopReason r) in
    callLLM (length (Agent.modelCalls st)) key msgs = Agent.Replied r ->
    Agent.resp_stopReason r <> "tool_use" \/ Agent.resp_toolCalls r = [] ->
    (forall e, Agent.event_name e = "iteration" ->
               Agent.thrown listeners e = None) ->
    exists ending,
      Agent.on_input JSON_stringify String_of inherited callLLM toolHandlers set
        listeners inputData st
      = Some (Agent.mkAgentState
                (msgs ++ [reply])
                (Agent.emitted st ++
                 [Agent.iteration_start msgs;
                  Agent.iteration_llm_response 1 (Agent.resp_content r)
                    (Agent.resp_toolCalls r) (Agent.resp_stopReason r);
                  result]
                 ++ match Agent.thrown listeners result with
                    | Some t => [Agent.error t]
                    | None => []
                    end)
                (Agent.modelCalls st ++ [msgs]), ending)
      /\ (Agent.thrown listeners result = None -> ending = Agent.Returned).
Proof.
  intros JSON_stringify String_of inherited callLLM toolHandlers set listeners
         inputData st key u r Hkey Hu msgs reply result Hcall Hstop Hquiet.
  assert (Hbody : Agent.try_block JSON_stringify String_of inherited callLLM
                    toolHandlers set listeners inputData st
                  = Some (Agent.mkAgentState
                            (msgs ++ [reply])
                            (Agent.emitted st ++
                             [Agent.iteration_start msgs;
                              Agent.iteration_llm_response 1 (Agent.resp_content r)
                                (Agent.resp_toolCalls r) (Agent.resp_stopReason r);
                              result])
                            (Agent.modelCalls st ++ [msgs]),
                          Agent.thrown listeners result)).
  { unfold Agent.try_block. rewrite Hkey, Hu. cbv zeta.
    unfold Agent.emit at 1. rewrite Hquiet by reflexivity.
    pose proof (config_maxIterations_pos set) as Hpos.
    destruct (Agent.config_maxIterations set) as [|n] eqn:HM; [lia|].
    cbn [Agent.loop]. rewrite HM.
    replace (Nat.ltb 0 (S n)) with true by reflexivity.
    cbn [Agent.calling Agent.logged Agent.push Agent.messages Agent.modelCalls
         Agent.emitted].
    rewrite length_app. cbn [length].
    replace (length (Agent.modelCalls st) + 1 - 1)
      with (length (Agent.modelCalls st)) by lia.
    fold msgs. rewrite Hcall.
    unfold Agent.emit at 1. rewrite Hquiet by reflexivity.
    assert (Hcond : negb (String.eqb (Agent.resp_stopReason r) "tool_use")
                    || Nat.eqb (length (Agent.resp_toolCalls r)) 0 = true).
    { destruct Hstop as [Hne | ->].
      - apply String.eqb_neq in Hne. rewrite Hne. reflexivity.
      - apply orb_true_r. }
    rewrite Hcond. unfold Agent.emit, Agent.logged, Agent.push, Agent.calling.
    simpl. fold msgs. fold reply. fold result.
    rewrite <- !app_assoc. reflexivity. }
  destruct (on_input_catch JSON_stringify String_of inherited callLLM toolHandlers
              set listeners inputData st _ _ Hbody) as [ending [Hrun Hend]].
  exists ending. split; [|exact Hend].
  rewrite Hrun. destruct (Agent.thrown listeners result);
    unfold Agent.logged; simpl.
  - rewrite <- app_assoc. reflexivity.
  - reflexivity.
Qed.

Lemma agent_stops_without_tool_request_witness :
  let stringify := fun _ : Canon.JSValue => Tools.JsonText "{}" in
  let String_of := fun _ : Canon.JSValue => "[object Object]" in
  let call := Tools.mkToolCall "t1" "calc" Canon.JSNull in
  let r := Agent.mkLLMResponse [Canon.text_block "cut"] [call] "max_tokens" in
  let callLLM := fun (_ : nat) (_ : string) (_ : list Canon.Message) =>
                   Agent.Replied r in
  let set := Agent.mkAgentConfig (Some "k") None None in
  let listeners : gmap string (list Agent.Subscriber) :=
    <["data" := [fun _ : Agent.Emitted => @None string]]> ∅ in
  let inputData := Agent.mkInputData (Some "Hello") None None in
  exists st' ending,
    Agent.on_input stringify String_of Tools.inherits_toString callLLM ∅ set
      listeners inputData (Agent.initial set)
      = Some (st', ending)
    /\ Agent.messages st'
       = [Canon.mkMessage Canon.user (Canon.Str "Hello");
          Canon.mkMessage Canon.assistant (Canon.Blocks [Canon.text_block "cut"])]
    /\ length (Agent.modelCalls st') = 1.
Proof.
  intros stringify String_of call r callLLM set listeners inputData.
  destruct (agent_stops_without_tool_request stringify String_of
              Tools.inherits_toString callLLM ∅ set listeners inputData
              (Agent.initial set) "k" "Hello" r)
    as [ending [Hrun _]];
    [reflexivity | reflexivity | reflexivity | left; discriminate | |].
  - intros e He. unfold Agent.thrown. rewrite He. reflexivity.
  - eexists _, ending. split; [exact Hrun|]. split; reflexivity.
Defined.

Section RegistryFacts.
Import Canon Tools Adapter Registry.

(** [findIndex] and [splice]: the first definition of that name goes,
    the others stay where they were. *)
Lemma remove_first_split name pre d post :
  td_name d = name -> (forall x, In x pre -> td_name x <> name) ->
  remove_first name (pre ++ d :: post) = pre ++ post.
Proof.
  intros Hd. induction pre as [|x pre IH]; intros Hpre; simpl.
  - rewrite Hd, String.eqb_refl. reflexivity.
  - replace (String.eqb (td_name x) name) with false
      by (symmetry; apply String.eqb_neq; apply Hpre; left; reflexivity).
    rewrite IH by (intros y Hy; apply Hpre; right; exact Hy). reflexivity.
Qed.

Lemma remove_first_absent name defs :
  (forall x, In x defs -> td_name x <> name) -> remove_first name defs = defs.
Proof.
  induction defs as [|x defs IH]; intros Hall; simpl; [reflexivity|].
  replace (String.eqb (td_name x) name) with false
    by (symmetry; apply String.eqb_neq; apply Hall; left; reflexivity).
  rewrite IH by (intros y Hy; apply Hall; right; exact Hy). reflexivity.
Qed.

End RegistryFacts.

(** X17.  The agent loop's tool registry.  [unregisterTool(name)] deletes
    the handler of that name and leaves the other handlers; of the
    advertised definitions it removes the first one of that name and
    nothing else, the others keeping their order, and it removes none
    when no definition has that name.  So a name registered twice and
    unregistered once is still advertised to the model, by the second
    definition, although the table holds no handler for it.  The name
    [__proto__] is set aside: assigning to it replaces the table's
    prototype instead of storing a key. *)
Theorem agent_unregister_removes_one_definition :
  forall (t : Registry.AgentTools) (name : string),
    name <> "__proto__" ->
    let t' := Registry.agent_unregisterTool t name in
    Registry.toolHandlers t' !! name = None
    /\ (forall other, other <> name ->
          Registry.toolHandlers t' !! other = Registry.toolHandlers t !! other)
    /\ (forall pre d post,
          Registry.toolDefinitions t = pre ++ d :: post ->
          Adapter.td_name d = name ->
          (forall x, In x pre -> Adapter.td_name x <> name) ->
          Registry.toolDefinitions t' = pre ++ post)
    /\ ((forall x, In x (Registry.toolDefinitions t) -> Adapter.td_name x <> name) ->
          Registry.toolDefinitions t' = Registry.toolDefinitions t)
    /\ (forall d1 d2 h1 h2,
          Adapter.td_name d1 = name -> Adapter.td_name d2 = name ->
          (forall x, In x (Registry.toolDefinitions t) -> Adapter.td_name x <> name) ->
          let twice := Registry.agent_registerTool
                         (Registry.agent_registerTool t d1 h1) d2 h2 in
          let once := Registry.agent_unregisterTool twice name in
          Registry.toolHandlers once !! name = None
          /\ Registry.toolDefinitions once = Registry.toolDefinitions t ++ [d2]).
Proof.
  intros t name _ t'. subst t'. unfold Registry.agent_unregisterTool.
  simpl. split; [apply lookup_delete_eq|]. split; [|split; [|split]].
  - intros other Hne. apply lookup_delete_ne. congruence.
  - intros pre d post -> Hd Hpre. apply remove_first_split; assumption.
  - apply remove_first_absent.
  - intros d1 d2 h1 h2 Hd1 Hd2 Hnone. split; [apply lookup_delete_eq|].
    rewrite <- app_assoc. simpl. apply remove_first_split; assumption.
Qed.

Lemma agent_unregister_removes_one_definition_witness :
  let first := Adapter.mkToolDefinition "calc" "calculator" Canon.JSNull in
  let second := Adapter.mkToolDefinition "calc" "better calculator" Canon.JSNull in
  let other := Adapter.mkToolDefinition "search" "search" Canon.JSNull in
  let h := fun _ : Canon.JSValue => Tools.Fulfilled (Canon.JSString "4") in
  let t := Registry.agent_create (Some [other]) None in
  let once := Registry.agent_unregisterTool
                (Registry.agent_registerTool
                   (Registry.agent_registerTool t first h) second h)
                "calc" in
  Registry.toolHandlers once !! "calc" = None
  /\ Registry.toolDefinitions once = [other; second].
Proof.
  intros first second other h t once.
  assert (Hname : "calc" <> "__proto__") by discriminate.
  apply (proj2 (proj2 (proj2 (proj2
           (agent_unregister_removes_one_definition t "calc" Hname))))
           first second h h); [reflexivity|reflexivity|].
  intros x [<-|[]]. discriminate.
Defined.

(** * Further properties of the protocol adapter *)

Section OpenAIFacts.
Import Canon Tools Agent Adapter.
Variable JSON_stringify : JSValue -> string.
Variable JSON_parse : string -> option JSValue.

Local Abbreviation as_block := AgentTrace.as_block.

Lemma texts_of_tool_use calls : texts (map as_block calls) = [].
Proof. induction calls as [|c rest IH]; simpl; [reflexivity|exact IH]. Qed.

Lemma toolCalls_of_tool_use calls :
  omap toolCall_of_block (map as_block calls) = calls.
Proof.
  induction calls as [|[i n v] rest IH]; simpl; [reflexivity|].
  f_equal. exact IH.
Qed.

Lemma wire_tool_calls calls :
  omap (toolUse_of_block JSON_stringify) (map as_block calls)
  = map (fun c => mkOpenAIToolCall (tc_id c) (tc_name c)
                    (JSON_stringify (tc_input c))) calls.
Proof. induction calls as [|c rest IH]; simpl; [reflexivity|f_equal; exact IH]. Qed.

Lemma parse_wire_tool_calls calls :
  (forall c, In c calls -> JSON_parse (JSON_stringify (tc_input c)) = Some (tc_input c)) ->
  mapM (fun tc =>
          match JSON_parse (fn_arguments tc) with
          | Some input => Some (mkToolCall (otc_id tc) (fn_name tc) input)
          | None => None
          end)
       (map (fun c => mkOpenAIToolCall (tc_id c) (tc_name c)
                        (JSON_stringify (tc_input c))) calls)
  = Some calls.
Proof.
  induction calls as [|[i n v] rest IH]; intros Hparse; [reflexivity|].
  pose proof (Hparse (mkToolCall i n v) (or_introl eq_refl)) as Hhead.
  simpl in Hhead. simpl. rewrite Hhead. simpl.
  rewrite IH by (intros c Hc; apply Hparse; right; exact Hc). reflexivity.
Qed.

End OpenAIFacts.

Section InboundFacts.
Import Canon Tools Agent Adapter.

Lemma mapM_In_None {A B} (f : A -> option B) l x :
  In x l -> f x = None -> mapM f l = None.
Proof.
  intros Hin Hx. apply mapM_None_2. apply Exists_exists.
  exists x. split; [apply list_elem_of_In; exact Hin|exact Hx].
Qed.

Lemma texts_app a b : texts (a ++ b) = texts a ++ texts b.
Proof. unfold texts. apply omap_app. Qed.

Lemma convertToOpenAIMessages_single JSON_stringify m :
  convertToOpenAIMessages JSON_stringify [m] = convertMessage JSON_stringify m.
Proof. unfold convertToOpenAIMessages. simpl. apply app_nil_r. Qed.

End InboundFacts.

(** X18.  Round trip of an assistant turn through the OpenAI shapes.  An
    assistant message made of at most one non-empty text block followed
    by [tool_use] blocks becomes one wire message; a response carrying
    that wire message parses back to the same blocks and to the tool calls
    of those blocks, provided [JSON.parse] undoes [JSON.stringify] on the
    tool inputs. *)
Theorem openai_assistant_turn_round_trip :
  forall (JSON_stringify : Canon.JSValue -> string)
         (JSON_parse : string -> option Canon.JSValue)
         (text_part : list Canon.ContentBlock) (calls : list Tools.ToolCall)
         (finish_reason : string),
    text_part = []
    \/ (exists t, Canon.truthy t = true /\ text_part = [Canon.text_block t]) ->
    (forall c, In c calls ->
       JSON_parse (JSON_stringify (Tools.tc_input c)) = Some (Tools.tc_input c)) ->
    let bs := text_part ++ map AgentTrace.as_block calls in
    exists w,
      Adapter.convertToOpenAIMessages JSON_stringify
        [Canon.mkMessage Canon.assistant (Canon.Blocks bs)] = [w]
      /\ Adapter.oa_role w = Adapter.oa_assistant
      /\ Adapter.convertOpenAIResponseToAnthropic JSON_parse
           (Adapter.mkOpenAIResponse [Adapter.mkOpenAIChoice w finish_reason])
         = Some (Agent.mkLLMResponse bs calls
                   (if String.eqb finish_reason "tool_calls"
                    then "tool_use" else finish_reason)).
Proof.
  intros JSON_stringify JSON_parse text_part calls finish_reason Htext Hparse bs.
  rewrite convertToOpenAIMessages_single.
  unfold Adapter.convertMessage. cbn [Canon.content Canon.role].
  eexists. split; [reflexivity|]. split; [reflexivity|].
  unfold Adapter.convertOpenAIResponseToAnthropic.
  cbn [Adapter.choices Adapter.choice_message Adapter.oa_content
       Adapter.oa_tool_calls Adapter.finish_reason].
  subst bs. rewrite texts_app, texts_of_tool_use, app_nil_r.
  rewrite omap_app, wire_tool_calls.
  assert (Huse : omap (Adapter.toolUse_of_block JSON_stringify) text_part = [])
    by (destruct Htext as [-> | [t [_ ->]]]; reflexivity).
  rewrite Huse. simpl app.
  assert (Hcalls :
    default []
      (if Nat.ltb 0 (length (map (fun c => Adapter.mkOpenAIToolCall (Tools.tc_id c)
                                     (Tools.tc_name c)
                                     (JSON_stringify (Tools.tc_input c))) calls))
       then Some (map (fun c => Adapter.mkOpenAIToolCall (Tools.tc_id c)
                                  (Tools.tc_name c)
                                  (JSON_stringify (Tools.tc_input c))) calls)
       else None)
    = map (fun c => Adapter.mkOpenAIToolCall (Tools.tc_id c) (Tools.tc_name c)
                      (JSON_stringify (Tools.tc_input c))) calls)
    by (destruct calls; reflexivity).
  rewrite Hcalls, parse_wire_tool_calls by exact Hparse.
  f_equal. f_equal.
  destruct Htext as [-> | [t [Ht ->]]]; simpl.
  - reflexivity.
  - destruct t; [discriminate Ht|reflexivity].
Qed.

Lemma openai_assistant_turn_round_trip_witness :
  let stringify := fun _ : Canon.JSValue => "null" in
  let parse := fun _ : string => Some Canon.JSNull in
  let calls := [Tools.mkToolCall "t1" "calc" Canon.JSNull] in
  let bs := [Canon.text_block "Let me check"] ++ map AgentTrace.as_block calls in
  exists w,
    Adapter.convertToOpenAIMessages stringify
      [Canon.mkMessage Canon.assistant (Canon.Blocks bs)] = [w]
    /\ Adapter.oa_role w = Adapter.oa_assistant
    /\ Adapter.convertOpenAIResponseToAnthropic parse
         (Adapter.mkOpenAIResponse [Adapter.mkOpenAIChoice w "tool_calls"])
       = Some (Agent.mkLLMResponse bs calls "tool_use").
Proof.
  intros stringify parse calls bs.
  apply (openai_assistant_turn_round_trip stringify parse
           [Canon.text_block "Let me check"] calls "tool_calls").
  - right. exists "Let me check". split; reflexivity.
  - intros c [<-|[]]. reflexivity.
Defined.

(** X19.  What both inbound conversions guarantee about a parsed reply:
    its tool-call list is exactly its [tool_use] blocks, in order.  For
    the OpenAI conversion moreover the stop reason is never "tool_calls",
    the text of the first choice (if not empty) is the only text block,
    and there is one tool call per entry of [tool_calls]. *)
Theorem parsed_reply_invariants :
  forall (JSON_parse : string -> option Canon.JSValue),
    (forall data,
       omap Adapter.toolCall_of_block (Agent.resp_content (Adapter.parseAnthropic data))
       = Agent.resp_toolCalls (Adapter.parseAnthropic data))
    /\ (forall response r,
          Adapter.convertOpenAIResponseToAnthropic JSON_parse response = Some r ->
          omap Adapter.toolCall_of_block (Agent.resp_content r) = Agent.resp_toolCalls r
          /\ Agent.resp_stopReason r <> "tool_calls"
          /\ exists choice rest,
               Adapter.choices response = choice :: rest
               /\ Canon.texts (Agent.resp_content r)
                  = match Agent.given (Adapter.oa_content (Adapter.choice_message choice)) with
                    | Some s => [s]
                    | None => []
                    end
               /\ length (Agent.resp_toolCalls r)
                  = length (default [] (Adapter.oa_tool_calls
                                          (Adapter.choice_message choice)))).
Proof.
  intros JSON_parse. split; [reflexivity|].
  intros response r Hconv. unfold Adapter.convertOpenAIResponseToAnthropic in Hconv.
  destruct (Adapter.choices response) as [|choice rest] eqn:Hchoices; [discriminate|].
  destruct (mapM _ _) as [toolCalls|] eqn:Hmap; [|discriminate].
  injection Hconv as <-. simpl.
  assert (Hblocks : map (fun tc => Canon.tool_use (Tools.tc_id tc) (Tools.tc_name tc)
                                     (Tools.tc_input tc)) toolCalls
                    = map AgentTrace.as_block toolCalls) by reflexivity.
  rewrite Hblocks. split; [|split].
  - rewrite omap_app, toolCalls_of_tool_use.
    destruct (Agent.given _); reflexivity.
  - destruct (String.eqb (Adapter.finish_reason choice) "tool_calls") eqn:E.
    + discriminate.
    + apply String.eqb_neq. exact E.
  - exists choice, rest. split; [reflexivity|].
    split.
    + rewrite texts_app, texts_of_tool_use, app_nil_r.
      destruct (Agent.given _); reflexivity.
    + symmetry. eapply Forall2_length. apply mapM_Some_1. exact Hmap.
Qed.

Lemma parsed_reply_invariants_witness :
  let parse := fun _ : string => Some Canon.JSNull in
  let msg := Adapter.mkOpenAIMessage Adapter.oa_assistant (Some "Hi")
               (Some [Adapter.mkOpenAIToolCall "t1" "calc" "{}"]) None in
  let response := Adapter.mkOpenAIResponse [Adapter.mkOpenAIChoice msg "tool_calls"] in
  let r := Agent.mkLLMResponse
             [Canon.text_block "Hi"; Canon.tool_use "t1" "calc" Canon.JSNull]
             [Tools.mkToolCall "t1" "calc" Canon.JSNull] "tool_use" in
  omap Adapter.toolCall_of_block (Agent.resp_content r) = Agent.resp_toolCalls r
  /\ Agent.resp_stopReason r <> "tool_calls".
Proof.
  intros parse msg response r.
  destruct (proj2 (parsed_reply_invariants parse) response r eq_refl)
    as [Hcalls [Hstop _]].
  split; assumption.
Defined.

(** X20.  When the OpenAI conversion throws: a response without choices,
    or a first choice with a tool call whose arguments do not parse, is
    rejected as a whole, without partial content; choices after the first
    are never read. *)
Theorem openai_reply_rejected :
  forall (JSON_parse : string -> option Canon.JSValue),
    Adapter.convertOpenAIResponseToAnthropic JSON_parse (Adapter.mkOpenAIResponse [])
      = None
    /\ (forall choice rest tcs tc,
          Adapter.oa_tool_calls (Adapter.choice_message choice) = Some tcs ->
          In tc tcs ->
          JSON_parse (Adapter.fn_arguments tc) = None ->
          Adapter.convertOpenAIResponseToAnthropic JSON_parse
            (Adapter.mkOpenAIResponse (choice :: rest)) = None)
    /\ (forall choice rest,
          Adapter.convertOpenAIResponseToAnthropic JSON_parse
            (Adapter.mkOpenAIResponse (choice :: rest))
          = Adapter.convertOpenAIResponseToAnthropic JSON_parse
              (Adapter.mkOpenAIResponse [choice])).
Proof.
  intros JSON_parse. split; [reflexivity|]. split; [|reflexivity].
  intros choice rest tcs tc Htcs Hin Hbad.
  unfold Adapter.convertOpenAIResponseToAnthropic. simpl. rewrite Htcs. simpl.
  rewrite (mapM_In_None _ tcs tc Hin); [reflexivity|].
  rewrite Hbad. reflexivity.
Qed.

Lemma openai_reply_rejected_witness :
  let parse := fun s : string => if String.eqb s "{}" then Some (Canon.JSObject []) else None in
  let good := Adapter.mkOpenAIToolCall "t1" "calc" "{}" in
  let bad := Adapter.mkOpenAIToolCall "t2" "calc" "{oops" in
  let msg := Adapter.mkOpenAIMessage Adapter.oa_assistant (Some "Hi")
               (Some [good; bad]) None in
  Adapter.convertOpenAIResponseToAnthropic parse
    (Adapter.mkOpenAIResponse [Adapter.mkOpenAIChoice msg "tool_calls"]) = None.
Proof.
  intros parse good bad msg.
  apply (proj1 (proj2 (openai_reply_rejected parse))
           (Adapter.mkOpenAIChoice msg "tool_calls") [] [good; bad] bad).
  - reflexivity.
  - right. left. reflexivity.
  - reflexivity.
Defined.

(** X21.  The user turn the agent loop stores after running tools is sent
    to the OpenAI provider as one [tool] message per tool call, in call
    order, each with the call's id as [tool_call_id] and the result's
    content; the [is_error] flag is not sent and no [user] message is
    produced. *)
Theorem openai_echoes_tool_results :
  forall (JSON_text : Canon.JSValue -> string)
         (JSON_stringify : Canon.JSValue -> Tools.Serialized)
         (String_of : Canon.JSValue -> string)
         (inherited : string -> option Tools.ToolHandler)
         (tools : gmap string Tools.ToolHandler) (calls : list Tools.ToolCall),
    let run := Tools.runToolCall JSON_stringify String_of inherited tools in
    Adapter.convertToOpenAIMessages JSON_text
      [Canon.mkMessage Canon.user
         (Canon.Blocks
            (map (fun result =>
                    Canon.tool_result (Tools.tool_use_id result)
                      (Tools.result_content result) (Tools.is_error result))
                 (Tools.awaited_results JSON_stringify String_of inherited
                    tools calls)))]
    = map (fun toolCall =>
             Adapter.mkOpenAIMessage Adapter.oa_tool
               (Some (Tools.result_content (fst (run toolCall))))
               None (Some (Tools.tc_id toolCall)))
          calls.
Proof.
  intros JSON_text JSON_stringify String_of inherited tools calls run.
  rewrite convertToOpenAIMessages_single.
  unfold Adapter.convertMessage, Tools.awaited_results.
  cbn [Canon.content Canon.role].
  rewrite map_map. fold run.
  assert (Htexts : forall l : list Tools.ToolCall,
            Canon.texts (map (fun x =>
              Canon.tool_result
                (Tools.tool_use_id (fst (run x)))
                (Tools.result_content (fst (run x)))
                (Tools.is_error (fst (run x)))) l)
            = []).
  { induction l as [|c l IH]; simpl; [reflexivity|exact IH]. }
  rewrite Htexts. simpl. rewrite app_nil_r.
  assert (Hid : forall c, Tools.tool_use_id (fst (run c)) = Tools.tc_id c)
    by (intros c; apply runToolCall_id).
  induction calls as [|c calls IH]; simpl; [reflexivity|].
  rewrite Hid. f_equal. exact IH.
Qed.

(** * Further properties of the graph compiler *)

Section FirstPass.
Import Canon Compiler Wiring.

Lemma instantiate_unknown d after : forall before nodes counts,
  forallb known before = true -> known d = false ->
  inherited_name (type d) = false ->
  instantiate (before ++ d :: after) nodes counts
  = Throw (Error ("Node type " +:+ type d +:+ " not found")).
Proof.
  induction before as [|b before IH]; intros nodes counts Hknown Hd Hinh;
    cbn [app instantiate].
  - unfold known in Hd. rewrite Hd, Hinh. reflexivity.
  - cbn [forallb] in Hknown. apply andb_true_iff in Hknown.
    destruct Hknown as [Hb Hrest].
    unfold known in Hb. rewrite Hb. rewrite IH by assumption. reflexivity.
Qed.

Lemma count_type_cons t d ds :
  count_type t (d :: ds)
  = (if String.eqb (type d) t then 1 else 0) + count_type t ds.
Proof.
  unfold count_type. simpl. destruct (String.eqb (type d) t); reflexivity.
Qed.

(** The first pass on descriptors of known types: one instance per
    descriptor, and the id given to each. *)
Lemma instantiate_ids workflow : forall nodes counts,
  forallb known workflow = true ->
  exists nodes' counts' ds,
    instantiate workflow nodes counts = Ok (nodes', counts', ds)
    /\ length ds = length workflow
    /\ (forall k d, workflow !! k = Some d ->
          ds !! k
          = Some (mkDescriptor (type d)
                    (Some (assign_id d (default 0 (counts !! type d)
                                        + count_type (type d) (take (S k) workflow))))
                    (set d) (in_ d)))
    /\ (forall x, is_Some (nodes' !! x)
                  <-> is_Some (nodes !! x) \/ exists d, In d ds /\ id d = Some x).
Proof.
  induction workflow as [|d0 rest IH]; intros nodes counts Hknown.
  - exists nodes, counts, []. simpl. split; [reflexivity|]. split; [reflexivity|].
    split; [intros k d Hk; rewrite lookup_nil in Hk; discriminate|].
    intros x. split; [auto|]. intros [H|[d [[] _]]]. exact H.
  - cbn [forallb] in Hknown. apply andb_true_iff in Hknown.
    destruct Hknown as [H0 Hrest].
    cbn [instantiate]. unfold known in H0. rewrite H0.
    set (count := default 0 (counts !! type d0) + 1).
    set (counts1 := <[type d0 := count]> counts).
    set (id0 := assign_id d0 count).
    set (nodes1 := <[id0 := mkTaskNode (type d0) (set d0)]> nodes).
    destruct (IH nodes1 counts1 Hrest) as [nodes' [counts' [ds [Hrun [Hlen [Hids Hdom]]]]]].
    rewrite Hrun. simpl.
    eexists nodes', counts', _. split; [reflexivity|].
    split; [simpl; rewrite Hlen; reflexivity|]. split.
    + intros [|k] d Hk; simpl in Hk.
      * injection Hk as <-. simpl. rewrite count_type_cons, String.eqb_refl.
        replace (count_type (type d0) (take 0 rest)) with 0
          by (rewrite take_0; reflexivity).
        subst id0 count. reflexivity.
      * simpl. rewrite (Hids k d Hk). do 3 f_equal.
        change (take (S (S k)) (d0 :: rest)) with (d0 :: take (S k) rest).
        rewrite count_type_cons. subst counts1.
        destruct (String.eqb (type d0) (type d)) eqn:E.
        -- apply String.eqb_eq in E. rewrite <- E, lookup_insert_eq. simpl.
           subst count. f_equal. lia.
        -- apply String.eqb_neq in E. rewrite lookup_insert_ne by exact E.
           simpl. reflexivity.
    + intros x. rewrite Hdom. subst nodes1. rewrite lookup_insert.
      destruct (decide (id0 = x)) as [->|Hne]; simpl.
      * split; [|intros _; left; eauto].
        intros _. right. eexists. split; [left; reflexivity|]. reflexivity.
      * split.
        -- intros [H|[d [Hd Hx]]]; [left; exact H|].
           right. exists d. split; [right; exact Hd|exact Hx].
        -- intros [H|[d [[<-|Hd] Hx]]]; [left; exact H| |].
           ++ simpl in Hx. congruence.
           ++ right. exists d. split; assumption.
Qed.

(** Every node the first pass stores was built by the constructor its
    descriptor names. *)
Lemma instantiate_types workflow : forall nodes counts nodes' counts' ds,
  instantiate workflow nodes counts = Ok (nodes', counts', ds) ->
  forall x n, nodes' !! x = Some n ->
    nodes !! x = Some n
    \/ exists d, In d ds /\ id d = Some x /\ node_type n = type d.
Proof.
  induction workflow as [|d0 rest IH]; intros nodes counts nodes' counts' ds Hrun.
  - simpl in Hrun. injection Hrun as <- <- <-. auto.
  - cbn [instantiate] in Hrun.
    destruct (existsb (String.eqb (type d0)) nodeTypes).
    2:{ destruct (inherited_name (type d0)); discriminate. }
    set (count := default 0 (counts !! type d0) + 1) in *.
    set (counts1 := <[type d0 := count]> counts) in *.
    set (id0 := assign_id d0 count) in *.
    set (nodes1 := <[id0 := mkTaskNode (type d0) (set d0)]> nodes) in *.
    destruct (instantiate rest nodes1 counts1) as [[[nodes2 counts2] ds2]|e|] eqn:E;
      cbn [bind] in Hrun; try discriminate.
    injection Hrun as <- <- <-. intros x n Hx.
    destruct (IH nodes1 counts1 nodes2 counts2 ds2 E x n Hx) as [H|[d [Hd [Hid Hty]]]].
    + subst nodes1. rewrite lookup_insert in H.
      destruct (decide (id0 = x)) as [->|Hne]; simpl in H.
      * injection H as <-. right. eexists. split; [left; reflexivity|].
        split; reflexivity.
      * left. exact H.
    + right. exists d. split; [right; exact Hd|]. split; assumption.
Qed.

(** Every constructor but [output] returns an object with a [pipe]. *)
Lemma known_has_pipe t st :
  existsb (String.eqb t) nodeTypes = true -> t <> "output" ->
  has_pipe (mkTaskNode t st) = true.
Proof.
  intros Hknown Hne. unfold nodeTypes in Hknown. cbn [existsb] in Hknown.
  repeat (apply orb_true_iff in Hknown; destruct Hknown as [Hknown|Hknown]);
    try discriminate Hknown;
    apply String.eqb_eq in Hknown; subst t;
    try reflexivity; congruence.
Qed.

End FirstPass.

Section SecondPass.
Import Canon Compiler Wiring.
Variable nodes : gmap string TaskNode.

Local Abbreviation wirable := (Wiring.wirable nodes).

Lemma wired_bind {A B} (r : Result A) (k : A -> Result B) :
  wired r -> (forall a, wired (k a)) -> wired (bind r k).
Proof.
  intros [[a ->]|[t [-> Ht]]] Hk; cbn [bind]; [apply Hk|].
  right. exists t. split; [reflexivity|exact Ht].
Qed.

Lemma wired_Ok {A} (a : A) : wired (Ok a).
Proof. left. exists a. reflexivity. Qed.

Lemma bind_Ok {A B} (r : Result A) (k : A -> Result B) b :
  bind r k = Ok b -> exists a, r = Ok a /\ k a = Ok b.
Proof. destruct r as [a|t|]; cbn [bind]; [eauto|discriminate|discriminate]. Qed.

(** [outputNode.pipe(s)] returns exactly when the producer is a stored
    node that has a [pipe]. *)
Lemma transformEvent_Ok c key p o s :
  transformEvent nodes c key p o = Ok s ->
  s = mkSubscription c key p o
  /\ exists n, nodes !! p = Some n /\ has_pipe n = true.
Proof.
  unfold transformEvent, lookup_node. destruct (nodes !! p) as [n|].
  - destruct (has_pipe n) eqn:E; [|discriminate].
    intros H. injection H as <-. eauto.
  - match goal with |- context [if ?c then _ else _] => destruct c end;
      discriminate.
Qed.

Lemma transformEvent_piped c key p o n :
  nodes !! p = Some n -> has_pipe n = true ->
  transformEvent nodes c key p o = Ok (mkSubscription c key p o).
Proof.
  intros Hp Hpipe. unfold transformEvent, lookup_node. rewrite Hp, Hpipe.
  reflexivity.
Qed.

Lemma transformEvent_wired c key p o : wired (transformEvent nodes c key p o).
Proof.
  unfold transformEvent, lookup_node. destruct (nodes !! p) as [n|].
  - destruct (has_pipe n); [apply wired_Ok|].
    right. eexists. split; [reflexivity|right; reflexivity].
  - match goal with |- context [if ?c then _ else _] => destruct c end;
      right; eexists; (split; [reflexivity|]); [right|left]; reflexivity.
Qed.

Lemma wire_all_wired c key es : wired (wire_all nodes c key es).
Proof.
  induction es as [|v es IH]; cbn [wire_all]; [apply wired_Ok|].
  apply wired_bind; [apply transformEvent_wired|]. intros s.
  apply wired_bind; [exact IH|]. intros ss. apply wired_Ok.
Qed.

Lemma wire_entry_wired c key value : wired (wire_entry nodes c key value).
Proof.
  unfold wire_entry. apply wired_bind.
  - destruct value as [e|es|v]; [| |apply wired_Ok];
      (apply wired_bind; [apply transformEvent_wired|intros s; apply wired_Ok]).
  - intros first. apply wired_bind.
    + destruct value as [e|es|v]; [apply wired_Ok|apply wire_all_wired|apply wired_Ok].
    + intros second. apply wired_Ok.
Qed.

Lemma wire_entries_wired c entries : wired (wire_entries nodes c entries).
Proof.
  induction entries as [|[key value] entries IH]; cbn [wire_entries];
    [apply wired_Ok|].
  apply wired_bind; [apply wire_entry_wired|]. intros ss.
  apply wired_bind; [exact IH|]. intros ss'. apply wired_Ok.
Qed.

Lemma connect_wired ds : wired (connect nodes ds).
Proof.
  induction ds as [|d ds IH]; cbn [connect]; [apply wired_Ok|].
  apply wired_bind.
  - destruct (in_ d); [apply wire_entries_wired|apply wired_Ok].
  - intros ss. apply wired_bind; [exact IH|]. intros ss'. apply wired_Ok.
Qed.

Lemma wire_entry_wirable c key value :
  wirable (key, value) ->
  wire_entry nodes c key value = Ok (edges_of_entries c [(key, value)]).
Proof.
  unfold Wiring.wirable, wire_entry, edges_of_entries. simpl.
  destruct value as [e|es|v]; simpl.
  - intros [n [Hn Hpipe]]. rewrite (transformEvent_piped _ _ _ _ n Hn Hpipe).
    reflexivity.
  - intros [].
  - reflexivity.
Qed.

Lemma wire_entry_ok_edge c key e ss :
  wire_entry nodes c key (Edge e) = Ok ss ->
  exists n, nodes !! node e = Some n /\ has_pipe n = true.
Proof.
  unfold wire_entry. intros H.
  apply bind_Ok in H. destruct H as [first [H _]].
  apply bind_Ok in H. destruct H as [s [H _]].
  apply transformEvent_Ok in H. exact (proj2 H).
Qed.

Lemma edges_of_entries_cons c entry entries :
  edges_of_entries c (entry :: entries)
  = edges_of_entries c [entry] ++ edges_of_entries c entries.
Proof. unfold edges_of_entries. simpl. rewrite app_nil_r. reflexivity. Qed.

Lemma wire_entries_wirable c entries :
  Forall wirable entries ->
  wire_entries nodes c entries = Ok (edges_of_entries c entries).
Proof.
  induction 1 as [|[key value] entries Hhead _ IH]; [reflexivity|].
  cbn [wire_entries]. rewrite wire_entry_wirable by exact Hhead.
  cbn [bind]. rewrite IH. cbn [bind].
  rewrite (edges_of_entries_cons c (key, value) entries). reflexivity.
Qed.

Lemma wire_entries_ok_edge c entries ss key e :
  wire_entries nodes c entries = Ok ss ->
  In (key, Edge e) entries ->
  exists n, nodes !! node e = Some n /\ has_pipe n = true.
Proof.
  revert ss. induction entries as [|[key' value] entries IH]; intros ss Hok Hin.
  - destruct Hin.
  - cbn [wire_entries] in Hok.
    apply bind_Ok in Hok. destruct Hok as [s1 [E Hok]].
    apply bind_Ok in Hok. destruct Hok as [s2 [E' _]].
    destruct Hin as [Heq|Hin].
    + injection Heq as -> ->. eapply wire_entry_ok_edge. exact E.
    + eapply IH; [exact E'|exact Hin].
Qed.

Lemma connect_wirable ds :
  Forall (fun d => Forall wirable (entries_of d)) ds ->
  connect nodes ds = Ok (declared_edges ds).
Proof.
  induction 1 as [|d ds Hhead _ IH]; [reflexivity|].
  cbn [connect]. unfold declared_edges. cbn [flat_map].
  fold (declared_edges ds). unfold entries_of in Hhead.
  destruct (in_ d) as [entries|]; simpl in Hhead.
  - rewrite wire_entries_wirable by exact Hhead. cbn [bind].
    rewrite IH. reflexivity.
  - cbn [bind]. rewrite IH. reflexivity.
Qed.

Lemma connect_ok_edge ds ss d key e :
  connect nodes ds = Ok ss ->
  In d ds -> In (key, Edge e) (entries_of d) ->
  exists n, nodes !! node e = Some n /\ has_pipe n = true.
Proof.
  revert ss. induction ds as [|d' ds IH]; intros ss Hok Hd Hentry.
  - destruct Hd.
  - cbn [connect] in Hok.
    apply bind_Ok in Hok. destruct Hok as [s1 [E Hok]].
    apply bind_Ok in Hok. destruct Hok as [s2 [E' _]].
    destruct Hd as [->|Hd].
    + unfold entries_of in Hentry. destruct (in_ d) as [entries|]; [|destruct Hentry].
      eapply wire_entries_ok_edge; [exact E|exact Hentry].
    + eapply IH; [exact E'|exact Hd|exact Hentry].
Qed.

End SecondPass.

Section CompileFacts.
Import Canon Compiler Wiring.

Lemma has_id_assign d n x :
  has_id d = true -> id d = Some x -> assign_id d n = x.
Proof.
  unfold has_id, assign_id. intros H Hx. rewrite Hx in *.
  destruct x; [discriminate|reflexivity].
Qed.

(** With ids of their own the descriptors come out of the first pass
    unchanged. *)
Lemma instantiate_explicit workflow :
  forallb known workflow = true -> forallb has_id workflow = true ->
  exists nodes counts,
    instantiate workflow ∅ ∅ = Ok (nodes, counts, workflow)
    /\ (forall x, is_Some (nodes !! x)
                  <-> exists d, In d workflow /\ id d = Some x)
    /\ (forall x n, nodes !! x = Some n ->
          exists d, In d workflow /\ id d = Some x /\ node_type n = type d).
Proof.
  intros Hknown Hids.
  destruct (instantiate_ids workflow ∅ ∅ Hknown)
    as [nodes [counts [ds [Hrun [Hlen [Hk Hdom]]]]]].
  assert (Hds : ds = workflow).
  { apply list_eq. intros k. destruct (workflow !! k) as [d|] eqn:E.
    - rewrite (Hk k d E). f_equal.
      assert (Hd : has_id d = true).
      { rewrite forallb_forall in Hids. apply Hids.
        apply list_elem_of_In. eapply list_elem_of_lookup_2. exact E. }
      destruct d as [t [x|] st i]; [|discriminate]. simpl.
      rewrite (has_id_assign _ _ x Hd eq_refl). reflexivity.
    - apply lookup_ge_None. rewrite Hlen. apply lookup_ge_None. exact E. }
  subst ds. exists nodes, counts. split; [exact Hrun|]. split.
  - intros x. rewrite Hdom. rewrite lookup_empty. split.
    + intros [[? H]|H]; [discriminate|exact H].
    + intros H. right. exact H.
  - intros x n Hx.
    destruct (instantiate_types workflow ∅ ∅ nodes counts workflow Hrun x n Hx)
      as [H|H]; [rewrite lookup_empty in H; discriminate|exact H].
Qed.

End CompileFacts.

(** X22.  A workflow whose first descriptor of unknown type is [d] does
    not compile: [compile] throws "Node type <type> not found", whatever
    else the workflow contains, provided the type is not named like a
    member every object inherits (the guard [!nodeTypes[type]] lets
    those names through). *)
Theorem compile_unknown_type :
  forall (before after : list Compiler.TaskNodeDescriptor)
         (d : Compiler.TaskNodeDescriptor),
    forallb Wiring.known before = true ->
    Wiring.known d = false ->
    Canon.inherited_name (Compiler.type d) = false ->
    Compiler.compile (before ++ d :: after)
    = Compiler.Throw
        (Compiler.Error ("Node type " +:+ Compiler.type d +:+ " not found")).
Proof.
  intros before after d Hbefore Hd Hinh. unfold Compiler.compile.
  rewrite instantiate_unknown by assumption. reflexivity.
Qed.

Lemma compile_unknown_type_witness :
  Compiler.compile
    ([Compiler.mkDescriptor "input" None None None]
     ++ Compiler.mkDescriptor "timer" None None None :: [])
  = Compiler.Throw (Compiler.Error "Node type timer not found").
Proof.
  apply (compile_unknown_type [Compiler.mkDescriptor "input" None None None] []
           (Compiler.mkDescriptor "timer" None None None)); reflexivity.
Defined.

(** X23.  Ids given by the first pass.  Every descriptor of a workflow of
    known types gets a node.  A descriptor with an id of its own keeps it;
    one without (or with the empty string) gets "<type>-<N>", where N
    counts the descriptors of that type up to and including it, those
    with an id of their own included. *)
Theorem first_pass_assigns_ids :
  forall (workflow : list Compiler.TaskNodeDescriptor),
    forallb Wiring.known workflow = true ->
    exists nodes counts ds,
      Compiler.instantiate workflow ∅ ∅ = Compiler.Ok (nodes, counts, ds)
      /\ length ds = length workflow
      /\ forall k d, workflow !! k = Some d ->
           exists x,
             ds !! k = Some (Compiler.mkDescriptor (Compiler.type d) (Some x)
                               (Compiler.set d) (Compiler.in_ d))
             /\ is_Some (nodes !! x)
             /\ (Wiring.has_id d = true -> Compiler.id d = Some x)
             /\ (Wiring.has_id d = false ->
                   x = Compiler.type d +:+ "-" +:+
                       pretty (Wiring.count_type (Compiler.type d)
                                 (take (S k) workflow))).
Proof.
  intros workflow Hknown.
  destruct (instantiate_ids workflow ∅ ∅ Hknown)
    as [nodes [counts [ds [Hrun [Hlen [Hk Hdom]]]]]].
  exists nodes, counts, ds. split; [exact Hrun|]. split; [exact Hlen|].
  intros k d E. pose proof (Hk k d E) as Hd. rewrite lookup_empty in Hd.
  simpl in Hd. eexists. split; [exact Hd|]. split; [|split].
  - apply Hdom. right. eexists. split.
    + apply list_elem_of_In. eapply list_elem_of_lookup_2. exact Hd.
    + reflexivity.
  - unfold Wiring.has_id, Compiler.assign_id.
    destruct (Compiler.id d) as [[|a x]|]; intros H; try discriminate.
    reflexivity.
  - unfold Wiring.has_id, Compiler.assign_id.
    destruct (Compiler.id d) as [[|a x]|]; intros H; try discriminate;
      reflexivity.
Qed.

Lemma first_pass_assigns_ids_witness :
  let workflow := [Compiler.mkDescriptor "input" (Some "a") None None;
                   Compiler.mkDescriptor "output" None None None;
                   Compiler.mkDescriptor "input" None None None] in
  exists nodes counts ds,
    Compiler.instantiate workflow ∅ ∅ = Compiler.Ok (nodes, counts, ds)
    /\ map Compiler.id ds = [Some "a"; Some "output-1"; Some "input-2"].
Proof.
  intros workflow.
  destruct (first_pass_assigns_ids workflow eq_refl)
    as [nodes [counts [ds [Hrun _]]]].
  exists nodes, counts, ds. split; [exact Hrun|].
  vm_compute in Hrun. injection Hrun as _ _ <-. reflexivity.
Defined.





(** An output node is a write stream and cannot be a producer; neither
    can a name the node table only inherits. *)
Example compile_output_as_producer :
  Compiler.compile
    [Compiler.mkDescriptor "output" (Some "a") None None;
     Compiler.mkDescriptor "output" (Some "b") None
       (Some [("data", Compiler.Edge (Compiler.mkNodeInput "a" "data"))])]
  = Compiler.Throw Wiring.pipe_not_a_function.
Proof. vm_compute. reflexivity. Qed.

Example compile_inherited_producer :
  Compiler.compile
    [Compiler.mkDescriptor "output" (Some "b") None
       (Some [("data", Compiler.Edge (Compiler.mkNodeInput "constructor" "data"))])]
  = Compiler.Throw Wiring.pipe_not_a_function.
Proof. vm_compute. reflexivity. Qed.

(** * Properties of the transport node's templates *)

Section StringFacts.

Lemma append_assoc (a b c : string) : (a +:+ b) +:+ c = a +:+ (b +:+ c).
Proof.
  induction a as [|x a IH]; [reflexivity|].
  change (String x ((a +:+ b) +:+ c) = String x (a +:+ (b +:+ c))).
  f_equal. exact IH.
Qed.

Lemma append_nil_r (a : string) : a +:+ "" = a.
Proof.
  induction a as [|x a IH]; [reflexivity|].
  change (String x (a +:+ "") = String x a). f_equal. exact IH.
Qed.

Lemma length_append (a b : string) :
  String.length (a +:+ b) = String.length a + String.length b.
Proof.
  induction a as [|x a IH]; [reflexivity|].
  change (S (String.length (a +:+ b)) = S (String.length a + String.length b)).
  f_equal. exact IH.
Qed.

End StringFacts.

Section TemplateFacts.
Import Canon Fetch.
Variable String_of : JSValue -> string.
Variable inherited_text : string -> option string.
Variable data : gmap string JSValue.

Local Abbreviation replace_from := (Fetch.replace_from String_of inherited_text data).
Local Abbreviation replacePlaceholders :=
  (Fetch.replacePlaceholders String_of inherited_text data).
Local Abbreviation replacement := (Fetch.replacement String_of inherited_text data).
Local Abbreviation lookup_text := (Fetch.lookup_text String_of inherited_text data).

Lemma span_word_append s : forall w r, span_word s = (w, r) -> s = w +:+ r.
Proof.
  induction s as [|c s IH]; intros w r H; simpl in H.
  - injection H as <- <-. reflexivity.
  - destruct (is_word c).
    + destruct (span_word s) as [w' r'] eqn:E. injection H as <- <-.
      simpl. rewrite (IH w' r' eq_refl). reflexivity.
    + injection H as <- <-. reflexivity.
Qed.

Lemma match_here_sound s key tail :
  match_here s = Some (key, tail) ->
  s = "[[" +:+ key +:+ "]]" +:+ tail.
Proof.
  unfold match_here. intros H.
  destruct s as [|c1 s]; [discriminate|].
  destruct (Ascii.eqb_spec c1 "["%char) as [->|Hne].
  2:{ exfalso. revert H.
      destruct c1 as [[] [] [] [] [] [] [] []]; try discriminate.
      exfalso. apply Hne. reflexivity. }
  destruct s as [|c2 body]; [discriminate|].
  destruct (Ascii.eqb_spec c2 "["%char) as [->|Hne].
  2:{ exfalso. revert H.
      destruct c2 as [[] [] [] [] [] [] [] []]; try discriminate.
      exfalso. apply Hne. reflexivity. }
  destruct (span_word body) as [w r] eqn:E.
  apply span_word_append in E. subst body.
  destruct w as [|k ks]; [discriminate|].
  destruct r as [|c3 r]; [discriminate|].
  destruct (Ascii.eqb_spec c3 "]"%char) as [->|Hne].
  2:{ exfalso. revert H.
      destruct c3 as [[] [] [] [] [] [] [] []]; try discriminate.
      exfalso. apply Hne. reflexivity. }
  destruct r as [|c4 r]; [discriminate|].
  destruct (Ascii.eqb_spec c4 "]"%char) as [->|Hne].
  2:{ exfalso. revert H.
      destruct c4 as [[] [] [] [] [] [] [] []]; try discriminate.
      exfalso. apply Hne. reflexivity. }
  injection H as <- <-. reflexivity.
Qed.

Lemma match_here_shorter s key tail :
  match_here s = Some (key, tail) -> String.length tail < String.length s.
Proof.
  intros H. apply match_here_sound in H. subst s.
  rewrite !length_append. cbn [String.length]. lia.
Qed.

Lemma match_here_empty : match_here "" = None.
Proof. reflexivity. Qed.

(** Fuel beyond the length of the template changes nothing. *)
Lemma replace_from_enough f1 : forall f2 s,
  String.length s <= f1 -> String.length s <= f2 ->
  replace_from f1 s = replace_from f2 s.
Proof.
  induction f1 as [|f1 IH]; intros f2 s H1 H2.
  - destruct s; [|simpl in H1; lia]. destruct f2; reflexivity.
  - destruct f2 as [|f2].
    + destruct s; [|simpl in H2; lia]. reflexivity.
    + cbn [Fetch.replace_from].
      destruct (match_here s) as [[key tail]|] eqn:E.
      * apply match_here_shorter in E. f_equal. apply IH; lia.
      * destruct s as [|c rest]; [reflexivity|]. f_equal.
        simpl in H1, H2. apply IH; lia.
Qed.

Lemma replacePlaceholders_step s :
  replacePlaceholders s
  = match match_here s with
    | Some (key, tail) => replacement key +:+ replacePlaceholders tail
    | None =>
        match s with
        | String c rest => String c (replacePlaceholders rest)
        | EmptyString => EmptyString
        end
    end.
Proof.
  unfold Fetch.replacePlaceholders. destruct s as [|c rest]; [reflexivity|].
  cbn [String.length Fetch.replace_from].
  destruct (match_here (String c rest)) as [[key tail]|] eqn:E.
  - apply match_here_shorter in E. simpl in E. f_equal.
    apply replace_from_enough; lia.
  - reflexivity.
Qed.

(** A template whose placeholders all name keys that [data[key]] does
    not find is rebuilt as it was. *)
Lemma replace_from_unresolved fuel : forall s,
  (forall key, In key (keys_from fuel s) -> lookup_text key = None) ->
  replace_from fuel s = s.
Proof.
  induction fuel as [|fuel IH]; intros s Hkeys; [reflexivity|].
  cbn [Fetch.replace_from Fetch.keys_from] in *.
  destruct (match_here s) as [[key tail]|] eqn:E.
  - rewrite IH by (intros k Hk; apply Hkeys; right; exact Hk).
    unfold Fetch.replacement. rewrite (Hkeys key) by (left; reflexivity).
    apply match_here_sound in E. subst s.
    rewrite !append_assoc. reflexivity.
  - destruct s as [|c rest]; [reflexivity|]. rewrite IH by exact Hkeys.
    reflexivity.
Qed.

End TemplateFacts.

Section SubstitutionFacts.
Import Canon Fetch.
Variable String_of : JSValue -> string.
Variable inherited_text : string -> option string.
Variable data : gmap string JSValue.

Local Abbreviation replacePlaceholders :=
  (Fetch.replacePlaceholders String_of inherited_text data).

Lemma match_here_bracket c rest key tail :
  match_here (String c rest) = Some (key, tail) -> c = "["%char.
Proof.
  intros H. apply match_here_sound in H.
  change ("[[" +:+ key +:+ "]]" +:+ tail)
    with (String "[" (String "[" (key +:+ "]]" +:+ tail))) in H.
  injection H as -> _. reflexivity.
Qed.

Lemma span_word_key key rest :
  all_word key = true ->
  span_word (key +:+ "]]" +:+ rest) = (key, "]]" +:+ rest).
Proof.
  induction key as [|c key IH]; intros Hw.
  - reflexivity.
  - simpl in Hw. apply andb_true_iff in Hw. destruct Hw as [Hc Hrest].
    change (String c key +:+ "]]" +:+ rest)
      with (String c (key +:+ "]]" +:+ rest)).
    cbn [span_word]. rewrite Hc, (IH Hrest). reflexivity.
Qed.

Lemma match_here_key key rest :
  is_key key = true ->
  match_here ("[[" +:+ key +:+ "]]" +:+ rest) = Some (key, rest).
Proof.
  unfold is_key. intros H. apply andb_true_iff in H. destruct H as [Hne Hw].
  change ("[[" +:+ key +:+ "]]" +:+ rest)
    with (String "[" (String "[" (key +:+ "]]" +:+ rest))).
  cbn [match_here]. rewrite (span_word_key key rest Hw).
  destruct key; [discriminate|reflexivity].
Qed.

Lemma replace_after_plain pre s :
  no_bracket pre = true ->
  replacePlaceholders (pre +:+ s) = pre +:+ replacePlaceholders s.
Proof.
  induction pre as [|c pre IH]; intros Hpre; [reflexivity|].
  simpl in Hpre. apply andb_true_iff in Hpre. destruct Hpre as [Hc Hrest].
  change (String c pre +:+ s) with (String c (pre +:+ s)).
  rewrite replacePlaceholders_step.
  destruct (match_here (String c (pre +:+ s))) as [[key tail]|] eqn:E.
  - apply match_here_bracket in E. subst c. discriminate Hc.
  - rewrite (IH Hrest). reflexivity.
Qed.

End SubstitutionFacts.

(** X26.  A template is left as it is, placeholders included, when none
    of its placeholders names a key that the input object holds or
    inherits; so is a configuration all of whose strings are such
    templates.  (With an empty input object a placeholder such as
    [[[constructor]]] is still replaced, by the inherited member.) *)
Theorem fetch_unresolved_placeholders_stay :
  forall (String_of : Canon.JSValue -> string)
         (inherited_text : string -> option string)
         (data : gmap string Canon.JSValue)
         (template : string) (set : Fetch.FetchConfig),
    let unresolved := fun t =>
      forall key, In key (Fetch.placeholders t) ->
                  data !! key = None /\ inherited_text key = None in
    (unresolved template ->
       Fetch.replacePlaceholders String_of inherited_text data template = template)
    /\ ((forall t, In t (Fetch.templates set) -> unresolved t) ->
        Fetch.replaceInObject String_of inherited_text data set = set).
Proof.
  intros String_of inherited_text data template set unresolved.
  assert (H : forall s, unresolved s ->
                Fetch.replacePlaceholders String_of inherited_text data s = s).
  { intros s Hs. apply replace_from_unresolved. intros key Hkey.
    destruct (Hs key Hkey) as [Hown Hinh].
    unfold Fetch.lookup_text. rewrite Hown. exact Hinh. }
  split; [apply H|].
  intros Hall. destruct set as [u m hs b]. unfold Fetch.replaceInObject.
  unfold Fetch.templates in Hall. simpl in *.
  f_equal.
  - destruct u as [u|]; simpl; [|reflexivity]. rewrite H; [reflexivity|].
    apply Hall. left. reflexivity.
  - destruct m as [m|]; simpl; [|reflexivity]. rewrite H; [reflexivity|].
    apply Hall. apply in_or_app. right. left. reflexivity.
  - destruct hs as [hs|]; simpl; [|reflexivity]. f_equal.
    assert (Hhs : forall t, In t (map snd hs) -> unresolved t).
    { intros t Ht. apply Hall. apply in_or_app. right. apply in_or_app. right.
      apply in_or_app. left. exact Ht. }
    clear Hall. induction hs as [|[k v] hs IH]; simpl; [reflexivity|].
    rewrite H by (apply Hhs; left; reflexivity).
    rewrite IH by (intros t Ht; apply Hhs; right; exact Ht). reflexivity.
  - destruct b as [b|]; simpl; [|reflexivity]. rewrite H; [reflexivity|].
    apply Hall. apply in_or_app. right. apply in_or_app. right.
    apply in_or_app. right. left. reflexivity.
Qed.

Lemma fetch_unresolved_placeholders_stay_witness :
  let String_of := fun v : Canon.JSValue =>
    match v with Canon.JSString s => s | _ => "null" end in
  let data : gmap string Canon.JSValue := <["id" := Canon.JSString "7"]> ∅ in
  Fetch.replacePlaceholders String_of Fetch.inherits_constructor data
    "https://api/[[user]]/items"
  = "https://api/[[user]]/items".
Proof.
  intros String_of data.
  apply (proj1 (fetch_unresolved_placeholders_stay String_of
                  Fetch.inherits_constructor data "https://api/[[user]]/items"
                  (Fetch.mkFetchConfig None None None None))).
  intros key Hkey. vm_compute in Hkey.
  destruct Hkey as [<-|[]]. split; reflexivity.
Defined.

(** X27.  Substitution, from left to right.  In a template that starts
    with text free of opening brackets followed by a placeholder
    [[[key]]], the text is kept; the placeholder is replaced by the
    string form of [data[key]] when the input object holds the key, by
    the string form of the inherited member when the key names one, and
    is left verbatim otherwise; the rest of the template is treated the
    same way, and the inserted value is not scanned for placeholders. *)
Theorem fetch_placeholder_substitution :
  forall (String_of : Canon.JSValue -> string)
         (inherited_text : string -> option string)
         (data : gmap string Canon.JSValue)
         (pre key rest : string),
    Fetch.no_bracket pre = true ->
    Fetch.is_key key = true ->
    Fetch.replacePlaceholders String_of inherited_text data
      (pre +:+ "[[" +:+ key +:+ "]]" +:+ rest)
    = pre +:+
      (match data !! key with
       | Some v => String_of v
       | None =>
           match inherited_text key with
           | Some text => text
           | None => "[[" +:+ key +:+ "]]"
           end
       end) +:+
      Fetch.replacePlaceholders String_of inherited_text data rest.
Proof.
  intros String_of inherited_text data pre key rest Hpre Hkey.
  rewrite replace_after_plain by exact Hpre.
  rewrite replacePlaceholders_step, match_here_key by exact Hkey.
  unfold Fetch.replacement, Fetch.lookup_text.
  destruct (data !! key); reflexivity.
Qed.

Lemma fetch_placeholder_substitution_witness :
  let String_of := fun v : Canon.JSValue =>
    match v with Canon.JSString s => s | _ => "null" end in
  let data : gmap string Canon.JSValue := <["id" := Canon.JSString "[[x]]"]> ∅ in
  Fetch.replacePlaceholders String_of Fetch.inherits_constructor data
    ("https://api/" +:+ "[[" +:+ "id" +:+ "]]" +:+ "/[[constructor]]")
  = "https://api/[[x]]/function Object() { [native code] }".
Proof.
  intros String_of data.
  rewrite (fetch_placeholder_substitution String_of Fetch.inherits_constructor
             data "https://api/" "id" "/[[constructor]]" eq_refl eq_refl).
  reflexivity.
Defined.

(** X28.  The request the transport node sends.  When the URL is absent
    or empty after substitution it sends none and reports
    "URL is required for fetch node".  Otherwise it sends one request, to
    that URL, with the substituted headers; the method is the substituted
    one, or GET when none (or an empty one) is configured; the body is
    the substituted one when it is not empty and the method is neither
    GET nor HEAD, and there is no body otherwise. *)
Theorem fetch_request_rules :
  forall (String_of : Canon.JSValue -> string)
         (inherited_text : string -> option string)
         (data : gmap string Canon.JSValue)
         (set : Fetch.FetchConfig),
    let replaced := Fetch.replacePlaceholders String_of inherited_text data in
    let url := Fetch.given (replaced <$> Fetch.url set) in
    let method := Fetch.given (replaced <$> Fetch.method set) in
    let body := Fetch.given (replaced <$> Fetch.body set) in
    let outcome := Fetch.on_input String_of inherited_text data set in
    (url = None -> outcome = Fetch.EmitsError "URL is required for fetch node")
    /\ (forall u, url = Some u ->
          exists r, outcome = Fetch.Sends r
            /\ Fetch.req_url r = u /\ u <> ""
            /\ Fetch.req_method r = default "GET" method
            /\ Fetch.req_method r <> ""
            /\ Fetch.req_headers r
               = (fun hs => map (fun h => (fst h, replaced (snd h))) hs)
                 <$> Fetch.headers set
            /\ (Fetch.req_method r = "GET" \/ Fetch.req_method r = "HEAD" ->
                Fetch.req_body r = None)
            /\ (Fetch.req_method r <> "GET" -> Fetch.req_method r <> "HEAD" ->
                Fetch.req_body r = body))
    /\ (forall r, outcome = Fetch.Sends r -> url = Some (Fetch.req_url r))
    /\ (forall message, outcome = Fetch.EmitsError message -> url = None).
Proof.
  intros String_of inherited_text data set replaced url method body outcome.
  subst outcome. unfold Fetch.on_input.
  cbn [Fetch.replaceInObject Fetch.url Fetch.method Fetch.body Fetch.headers].
  fold replaced. fold url. fold method. fold body.
  assert (Hgiven : forall o s, Fetch.given o = Some s -> s <> "").
  { intros o s. unfold Fetch.given. destruct o as [x|]; [|discriminate].
    destruct x; simpl; [discriminate|]. intros H. injection H as <-. discriminate. }
  split; [intros ->; reflexivity|]. split; [|split].
  - intros u Hu. rewrite Hu. eexists. split; [reflexivity|].
    cbn [Fetch.req_url Fetch.req_method Fetch.req_body Fetch.req_headers].
    split; [reflexivity|]. split; [eapply Hgiven; exact Hu|].
    split; [reflexivity|]. split; [|split; [reflexivity|split]].
    + destruct method as [y|] eqn:Hm; simpl; [eapply Hgiven; exact Hm|discriminate].
    + intros [-> | ->]; destruct body; reflexivity.
    + intros Hget Hhead. apply String.eqb_neq in Hget, Hhead.
      rewrite Hget, Hhead. destruct body; reflexivity.
  - intros r Hr. destruct url as [x|]; [|discriminate].
    injection Hr as <-. reflexivity.
  - intros message Hr. destruct url as [x|]; [discriminate|reflexivity].
Qed.

Lemma fetch_request_rules_witness :
  let String_of := fun v : Canon.JSValue =>
    match v with Canon.JSString s => s | _ => "null" end in
  let data : gmap string Canon.JSValue := <["id" := Canon.JSString "7"]> ∅ in
  let set := Fetch.mkFetchConfig (Some "https://api/[[id]]") (Some "POST") None
               (Some "x=[[id]]") in
  exists r,
    Fetch.on_input String_of Fetch.inherits_constructor data set = Fetch.Sends r
    /\ Fetch.req_url r = "https://api/7"
    /\ Fetch.req_method r = "POST"
    /\ Fetch.req_body r = Some "x=7".
Proof.
  intros String_of data set.
  destruct (proj1 (proj2 (fetch_request_rules String_of Fetch.inherits_constructor
                            data set)) "https://api/7" eq_refl)
    as [r [Hrun [Hurl [_ [Hmethod [_ [_ [_ Hbody]]]]]]]].
  exists r. split; [exact Hrun|]. split; [exact Hurl|].
  split; [exact Hmethod|].
  apply Hbody; rewrite Hmethod; discriminate.
Defined.
